(** * CropDoc: the leaf-classifier training script [modal.py]

    The script is a straight line of framework calls: load a directory of
    images, rescale the pixels, declare a small convolutional network,
    compile it, fit it for five epochs and save it.  This development embeds

    - the arithmetic of the rescaling lambda [x/255.0] on binary32 tensors,
      bit for bit, through the IEEE 754 specification of the Standard
      Library ([SpecFloat] at precision 24, maximal exponent 128), which
      underflows gradually: an arithmetic unit that flushes subnormal
      numbers to zero departs from it where the dividend or the quotient
      is below 2^-126, and only there;
    - the script itself as a finite program over the framework calls it
      makes, run against an arbitrary implementation of those calls;
    - a reference implementation of the calls (directory scan and batching,
      the training loop, the write of the model file), whose numerics are
      left to a [Backend].  *)

From stdpp Require Import gmap strings list.
From Stdlib Require Import ZArith Lia Floats.SpecFloat.

(** ** Binary32 values, as held by the image tensors *)

Module Float32.
Local Open Scope Z_scope.

Definition prec : Z := 24.
Definition emax : Z := 128.
Definition float32 : Type := spec_float.

Definition of_int (z : Z) : float32 := binary_normalize prec emax z 0 false.
Definition div (x y : float32) : float32 := SFdiv prec emax x y.
Definition leb (x y : float32) : bool := SFleb x y.
Definition valid (x : float32) : bool := valid_binary prec emax x.

Definition zero : float32 := S754_zero false.
Definition one : float32 := of_int 1.

(** The literal [255.0]. *)
Definition c255 : float32 := of_int 255.

(** The exact value of a finite binary32 number, counted in units of
    2^-149 (the smallest positive binary32 number): every finite binary32
    value is an integer number of those. *)
Definition units (x : float32) : Z :=
  match x with
  | S754_finite s m e => (if s then -1 else 1) * (Zpos m * 2 ^ (e + 149))
  | _ => 0
  end.

(** A sign, a non-negative mantissa and an exponent, as the last step of
    [binary_round_aux] packs them. *)
Definition pack (s : bool) (m e : Z) : float32 :=
  match m with
  | Zpos p => S754_finite s p e
  | _ => S754_zero s
  end.

Definition canonical (m e : Z) : Prop :=
  -149 <= e <= 104 /\ 0 <= m < 2 ^ 24 /\ (-149 < e -> 2 ^ 23 <= m).

(** The rounding record [mrs] locates the exact quotient [N / D]:
    [shr_m] is its integer part, and the two sticky bits tell on which
    side of the midpoint the remainder lies. *)
Definition inb (mrs : shr_record) (N D : Z) : Prop :=
  0 <= shr_m mrs /\
  shr_m mrs * D <= N < (shr_m mrs + 1) * D /\
  match shr_r mrs, shr_s mrs with
  | false, false => N = shr_m mrs * D
  | false, true => shr_m mrs * D < N /\ 2 * N < (2 * shr_m mrs + 1) * D
  | true, false => 2 * N = (2 * shr_m mrs + 1) * D
  | true, true => (2 * shr_m mrs + 1) * D < 2 * N
  end.

(** What the table of the 256 integer pixel values checks for the pixel
    [n]: its quotient by 255.0 is a valid number of [[0, 1]], within 2^-25
    of the exact quotient. *)
Definition pixel_check (n : nat) : bool :=
  let p := Z.of_nat n in
  let r := div (of_int p) c255 in
  valid r && leb zero r && leb r one &&
  (2 ^ 25 * Z.abs (255 * units r - p * 2 ^ 149) <=? 255 * 2 ^ 149).

End Float32.

Abbreviation float32 := Float32.float32.

(** ** Tensors and the rescaling lambda *)

(** The image tensors the loader yields hold binary32 values; the Python
    literal [255.0] becomes the binary32 constant 255 when it meets one. *)
Record tensor := Tensor { shape : list nat; data : list float32 }.

(** Integer class indices, one per image of a batch. *)
Definition labels : Type := list Z.

Definition batch : Type := tensor * labels.

(** [x / c] for a tensor [x] and a scalar [c]: elementwise, same shape. *)
Definition tensor_div (x : tensor) (c : float32) : tensor :=
  {| shape := shape x; data := (fun v => Float32.div v c) <$> data x |}.

(** [lambda x, y: (x/255.0, y)] *)
Definition normalize (x : tensor) (y : labels) : tensor * labels :=
  (tensor_div x Float32.c255, y).

(** ** The layers the script declares *)

Inductive layer :=
| Conv2D (filters : nat) (kernel_size : nat * nat) (activation : string)
    (input_shape : option (nat * nat * nat))
| MaxPooling2D
| Flatten
| Dense (units : nat) (activation : string).

Definition model_layers : list layer :=
  [ Conv2D 32 (3, 3) "relu" (Some (224, 224, 3));
    MaxPooling2D;
    Conv2D 64 (3, 3) "relu" None;
    MaxPooling2D;
    Flatten;
    Dense 128 "relu";
    Dense 2 "softmax" ].

(** Width of the output layer: the units of the last layer, when it is
    a dense one. *)
Definition output_units (ls : list layer) : option nat :=
  match last ls with
  | Some (Dense n _) => Some n
  | _ => None
  end.

(** ** The script as a program over framework calls *)

Definition data_dir : string := "dataset".
Definition img_size : nat * nat := (224, 224).
Definition batch_size : nat := 32.

Inductive exception :=
| ConfigError
| ValueError
| RuntimeError
| IOError.

Inductive result (A : Type) :=
| Ok (a : A)
| Raise (e : exception).
Arguments Ok {A} a.
Arguments Raise {A} e.

(** The six framework entry points the script reaches. *)
Inductive tag := ELoad | EMap | ESequential | ECompile | EFit | ESave.

#[global] Instance tag_eq_dec : EqDecision tag.
Proof. solve_decision. Defined.

Section Script.
Context {dataset model : Type}.

(** The framework entry points the script uses, with the arguments it
    passes. *)
Inductive call : Type -> Type :=
| image_dataset_from_directory (directory : string) (image_size : nat * nat)
    (batch_size : nat) : call dataset
| dataset_map (ds : dataset) (f : tensor -> labels -> tensor * labels) : call dataset
| Sequential (layers : list layer) : call model
| compile (m : model) (optimizer loss : string) (metrics : list string) : call unit
| fit (m : model) (ds : dataset) (epochs : nat) : call unit
| save (m : model) (filepath : string) : call unit.

Inductive script (R : Type) : Type :=
| Ret (r : R)
| Bind {A : Type} (c : call A) (k : A -> script R).
Arguments Ret {R} r.
Arguments Bind {R A} c k.

(** One entry of the run's trace: the call made, and whether it returned
    ([true]) or raised ([false]). *)
Inductive event :=
| Event {A : Type} (c : call A) (returned : bool).

Definition tag_of {A : Type} (c : call A) : tag :=
  match c with
  | image_dataset_from_directory _ _ _ => ELoad
  | dataset_map _ _ => EMap
  | Sequential _ => ESequential
  | compile _ _ _ _ => ECompile
  | fit _ _ _ => EFit
  | save _ _ => ESave
  end.

Definition event_tag (ev : event) : tag * bool :=
  match ev with Event c b => (tag_of c, b) end.

(** The layers of a [Sequential] call, the epochs of a [fit] call, the
    path of a [save] call. *)
Definition event_layers (ev : event) : option (list layer) :=
  match ev with
  | Event (Sequential ls) _ => Some ls
  | _ => None
  end.

Definition event_epochs (ev : event) : option nat :=
  match ev with
  | Event (fit _ _ n) _ => Some n
  | _ => None
  end.

Definition event_path (ev : event) : option string :=
  match ev with
  | Event (save _ p) _ => Some p
  | _ => None
  end.

(** An implementation of the framework on a world [W]: every call
    returns or raises, and may change the world. *)
Definition handler (W : Type) : Type := forall A : Type, call A -> W -> result A * W.

(** A raised exception is not caught anywhere in the script: the run stops
    at the first call that raises. *)
Fixpoint run {W R : Type} (h : handler W) (s : script R) (w : W)
  : result R * W * list event :=
  match s with
  | Ret r => (Ok r, w, [])
  | Bind c k =>
      match h _ c w with
      | (Ok a, w1) =>
          let '(r, w2, tr) := run h (k a) w1 in (r, w2, Event c true :: tr)
      | (Raise e, w1) => (Raise e, w1, [Event c false])
      end
  end.

Declare Scope script_scope.
Notation "'let*' x ':=' c 'in' k" := (Bind c (fun x => k))
  (at level 10, x name, c at level 100, k at level 200) : script_scope.
Local Open Scope script_scope.

(** The module top level of [modal.py]. *)
Definition main : script unit :=
  let* train_ds := image_dataset_from_directory data_dir img_size batch_size in
  let* train_ds := dataset_map train_ds normalize in
  let* model := Sequential model_layers in
  let* _ := compile model "adam" "sparse_categorical_crossentropy" ["accuracy"] in
  let* _ := fit model train_ds 5 in
  let* _ := save model "leaf_model.h5" in
  Ret tt.

(** The order in which the script reaches the framework. *)
Definition pipeline : list tag := [ELoad; EMap; ESequential; ECompile; EFit; ESave].

(** The trace of a run whose first [k] calls return: the call after them,
    if there is one, raises and ends the run. *)
Definition trace_upto (k : nat) : list (tag * bool) :=
  ((fun t => (t, true)) <$> take k pipeline) ++
  match pipeline !! k with
  | Some t => [(t, false)]
  | None => []
  end.

End Script.

Arguments call : clear implicits.
Arguments script : clear implicits.
Arguments event : clear implicits.
Arguments handler : clear implicits.

(** ** The layer sequence in the words of the specification *)

Inductive stage :=
| input (h w c : nat)
| conv (filters kh kw : nat)
| relu
| max_pool
| flatten
| dense (n : nat)
| softmax.

(** Section 4.3: input 224x224x3, conv(32,3x3)+ReLU, max-pool,
    conv(64,3x3)+ReLU, max-pool, flatten, dense(128)+ReLU,
    dense(N)+softmax. *)
Definition spec_sequence (N : nat) : list stage :=
  [ input 224 224 3; conv 32 3 3; relu; max_pool; conv 64 3 3; relu; max_pool;
    flatten; dense 128; relu; dense N; softmax ].

Definition activation_stage (name : string) : list stage :=
  if String.eqb name "relu" then [relu]
  else if String.eqb name "softmax" then [softmax]
  else [].

(** What one layer constructor of the script contributes: the
    [input_shape] keyword declares the input, the [activation] keyword
    follows the layer's own transform. *)
Definition stages_of (l : layer) : list stage :=
  match l with
  | Conv2D f (kh, kw) act ishape =>
      match ishape with
      | Some (h, w, c) => [input h w c]
      | None => []
      end ++ conv f kh kw :: activation_stage act
  | MaxPooling2D => [max_pool]
  | Flatten => [flatten]
  | Dense n act => dense n :: activation_stage act
  end.

Definition describe (ls : list layer) : list stage := concat (stages_of <$> ls).

(** ** A reference implementation of the framework calls *)

Inductive optimizer := Adam | SGD | RMSprop.

Inductive loss :=
| SparseCategoricalCrossentropy
| CategoricalCrossentropy
| MeanSquaredError.

(** Modelled from the spec: the framework's resolution of the names given
    to [compile] is not part of the repository; section 4.4 names the Adam
    optimizer and the categorical cross-entropy loss on integer labels. *)
Definition optimizer_of_name (name : string) : option optimizer :=
  if String.eqb name "adam" then Some Adam
  else if String.eqb name "sgd" then Some SGD
  else if String.eqb name "rmsprop" then Some RMSprop
  else None.

Definition loss_of_name (name : string) : option loss :=
  if String.eqb name "sparse_categorical_crossentropy" then Some SparseCategoricalCrossentropy
  else if String.eqb name "categorical_crossentropy" then Some CategoricalCrossentropy
  else if String.eqb name "mse" then Some MeanSquaredError
  else None.

(** The numerics the framework brings: image decoding and resizing, the
    initial parameter values, and one optimizer step on one batch
    (forward pass, loss, gradients, parameter update), which may raise. *)
Class Backend := {
  raw_image : Type;
  params : Type;
  load_image : raw_image -> nat * nat -> list float32;
  init_params : list layer -> params;
  train_step : optimizer -> loss -> list layer -> params -> batch -> result params
}.

Section Reference.
Context `{Backend}.

Record model_object := ModelObject {
  layers_of : list layer;
  weights : params;
  compiled : option (optimizer * loss * list string)
}.

(** What a saved model file holds: topology and parameter values. *)
Record model_file := ModelFile {
  topology : list layer;
  parameter_values : params
}.

(** One training step, as the reference trainer performs it. *)
Record step := Step {
  step_epoch : nat;
  step_optimizer : optimizer;
  step_loss : loss;
  step_batch : batch
}.

(** The world of the script: the class subdirectories of each dataset
    directory with their files ([None] is a file that is not a readable
    image), the model files on disk, the paths that cannot be written, the
    model objects alive in the interpreter, and the training steps done so
    far. *)
Record world := World {
  directories : gmap string (list (string * list (option raw_image)));
  files : gmap string model_file;
  unwritable : gset string;
  heap : list model_object;
  steps : list step
}.

(** The readable images of a directory, each with the index of its class
    subdirectory. *)
Definition samples_of (classes : list (string * list (option raw_image)))
  : list (raw_image * Z) :=
  concat (imap (fun i c => (fun r => (r, Z.of_nat i)) <$> omap id (snd c)) classes).

(** Consecutive groups of [n] elements; the last group holds what is
    left. *)
Fixpoint chunks_fuel {A : Type} (fuel n : nat) (l : list A) : list (list A) :=
  match fuel with
  | O => []
  | S fuel' =>
      match l with
      | [] => []
      | _ :: _ => take n l :: chunks_fuel fuel' n (drop n l)
      end
  end.

Definition chunks {A : Type} (n : nat) (l : list A) : list (list A) :=
  chunks_fuel (length l) n l.

Definition make_batch (size : nat * nat) (group : list (raw_image * Z)) : batch :=
  ({| shape := [length group; fst size; snd size; 3];
      data := concat ((fun s => load_image (fst s) size) <$> group) |},
   snd <$> group).

(** Modelled from the spec: [image_dataset_from_directory] is the
    framework's; sections 4.1 and 7 give its contract (subdirectories are
    the labels, batches of images at the requested resolution, a
    configuration error when the directory is missing or holds no readable
    image). *)
Definition keras_load (w : world) (directory : string) (image_size : nat * nat)
    (batch_size : nat) : result (list batch) :=
  match directories w !! directory with
  | None => Raise ConfigError
  | Some classes =>
      match samples_of classes with
      | [] => Raise ConfigError
      | smp => Ok (make_batch image_size <$> chunks batch_size smp)
      end
  end.

(** Modelled from the spec: [Dataset.map] is the framework's; section 4.2
    has the function applied to every batch as it is produced. *)
Definition keras_map (ds : list batch) (f : tensor -> labels -> tensor * labels)
  : list batch :=
  (fun b => f (fst b) (snd b)) <$> ds.

(** Modelled from the spec: [Sequential] is the framework's; section 3
    has the model created with its initial parameter values, as a new
    object that the later calls change in place. *)
Definition keras_sequential (w : world) (ls : list layer) : result nat * world :=
  (Ok (length (heap w)),
   {| directories := directories w; files := files w; unwritable := unwritable w;
      heap := heap w ++ [ModelObject ls (init_params ls) None];
      steps := steps w |}).

Definition set_heap (w : world) (m : nat) (o : model_object) : world :=
  {| directories := directories w; files := files w; unwritable := unwritable w;
     heap := <[m := o]> (heap w); steps := steps w |}.

(** Modelled from the spec: [Model.compile] is the framework's; it
    records the optimizer, the loss and the metrics the trainer of
    section 4.4 is to use. *)
Definition keras_compile (w : world) (m : nat) (opt lo : string) (metrics : list string)
  : result unit * world :=
  match heap w !! m with
  | None => (Raise RuntimeError, w)
  | Some o =>
      match optimizer_of_name opt, loss_of_name lo with
      | Some opt', Some lo' =>
          (Ok tt, set_heap w m (ModelObject (layers_of o) (weights o) (Some (opt', lo', metrics))))
      | _, _ => (Raise ValueError, w)
      end
  end.

(** One pass over the batches, in order; stops at the first step that
    raises.  Returns the parameters reached, the exception if any, and the
    steps taken. *)
Fixpoint train_epoch (e : nat) (opt : optimizer) (lo : loss) (ls : list layer)
    (p : params) (bs : list batch) : params * option exception * list step :=
  match bs with
  | [] => (p, None, [])
  | b :: bs' =>
      match train_step opt lo ls p b with
      | Ok p' =>
          let '(q, ex, st) := train_epoch e opt lo ls p' bs' in
          (q, ex, Step e opt lo b :: st)
      | Raise ex => (p, Some ex, [Step e opt lo b])
      end
  end.

(** [n] passes, numbered from [e]. *)
Fixpoint train_epochs (n e : nat) (opt : optimizer) (lo : loss) (ls : list layer)
    (p : params) (bs : list batch) : params * option exception * list step :=
  match n with
  | O => (p, None, [])
  | S n' =>
      match train_epoch e opt lo ls p bs with
      | (p', None, st) =>
          let '(q, ex, st') := train_epochs n' (S e) opt lo ls p' bs in
          (q, ex, st ++ st')
      | (p', Some ex, st) => (p', Some ex, st)
      end
  end.

(** The steps of [n] full passes over the batches [bs]: pass 0 over every
    batch in order, then pass 1, and so on. *)
Definition full_schedule (n : nat) (opt : optimizer) (lo : loss) (bs : list batch)
  : list step :=
  concat ((fun k => Step k opt lo <$> bs) <$> seq 0 n).

(** Modelled from the spec: [Model.fit] is the framework's; section 4.4
    gives its contract (for each of the epochs, for each batch, one
    optimizer step against the compiled loss; no early stopping, no
    validation split, no checkpointing). *)
Definition keras_fit (w : world) (m : nat) (ds : list batch) (epochs : nat)
  : result unit * world :=
  match heap w !! m with
  | None => (Raise RuntimeError, w)
  | Some o =>
      match compiled o with
      | None => (Raise RuntimeError, w)
      | Some (opt, lo, metrics) =>
          let '(p, ex, st) := train_epochs epochs 0 opt lo (layers_of o) (weights o) ds in
          (match ex with None => Ok tt | Some e => Raise e end,
           {| directories := directories w; files := files w;
              unwritable := unwritable w;
              heap := <[m := ModelObject (layers_of o) p (compiled o)]> (heap w);
              steps := steps w ++ st |})
      end
  end.

(** Modelled from the spec: [Model.save] is the framework's; section 4.5
    gives its contract (topology and parameter values go to the one named
    file, an existing file is overwritten, an unwritable path is an I/O
    error). *)
Definition keras_save (w : world) (m : nat) (filepath : string) : result unit * world :=
  match heap w !! m with
  | None => (Raise RuntimeError, w)
  | Some o =>
      if decide (filepath ∈ unwritable w) then (Raise IOError, w)
      else
        (Ok tt,
         {| directories := directories w;
            files := <[filepath := ModelFile (layers_of o) (weights o)]> (files w);
            unwritable := unwritable w; heap := heap w; steps := steps w |})
  end.

Definition keras : handler (list batch) nat world :=
  fun A c =>
    match c in call _ _ T return world -> result T * world with
    | image_dataset_from_directory d sz bs => fun w => (keras_load w d sz bs, w)
    | dataset_map ds f => fun w => (Ok (keras_map ds f), w)
    | Sequential ls => fun w => keras_sequential w ls
    | compile m opt lo ms => fun w => keras_compile w m opt lo ms
    | fit m ds n => fun w => keras_fit w m ds n
    | save m path => fun w => keras_save w m path
    end.

(** The parameters the reference trainer reaches from the initial ones
    of the script's model, on the batches [ds]. *)
Definition trained (ds : list batch) : params * option exception * list step :=
  train_epochs 5 0 Adam SparseCategoricalCrossentropy model_layers
    (init_params model_layers) ds.

End Reference.

(** The outcome of applying [f] to the batches [bs] in turn, from the
    parameters [p]. *)
Fixpoint apply_steps {P : Type} (f : P -> batch -> result P) (p : P) (bs : list batch)
  : result P :=
  match bs with
  | [] => Ok p
  | b :: bs' =>
      match f p b with
      | Ok p' => apply_steps f p' bs'
      | Raise e => Raise e
      end
  end.

(** ** A small backend and worlds to run the reference implementation on *)

(** Parameters count the optimizer steps taken; an image file holds its
    pixels. *)
Definition counting_backend : Backend :=
  {| raw_image := list float32;
     params := nat;
     load_image := fun r _ => r;
     init_params := fun _ => 0;
     train_step := fun _ _ _ p _ => Ok (S p) |}.

Definition leaf (a b c : Z) : option (list float32) :=
  Some [Float32.of_int a; Float32.of_int b; Float32.of_int c].

(** Two class subdirectories, two readable images and a file that is not
    one; an older model file is on disk. *)
Definition example_world : @world counting_backend :=
  {| directories :=
       {[ "dataset" := [("diseased", [leaf 0 128 255; None]); ("healthy", [leaf 12 200 31])] ]};
     files := {[ "leaf_model.h5" := @ModelFile counting_backend [] 7 ]};
     unwritable := ∅;
     heap := [];
     steps := [] |}.

(** The same, with the model file's path not writable. *)
Definition read_only_world : @world counting_backend :=
  {| directories := directories example_world;
     files := files example_world;
     unwritable := {[ "leaf_model.h5" ]};
     heap := [];
     steps := [] |}.

(** What the loader returns in these worlds: one batch of two images. *)
Definition example_batches : list batch :=
  [ ({| shape := [2; 224; 224; 3];
        data := Float32.of_int <$> [0; 128; 255; 12; 200; 31]%Z |},
     [0; 1]%Z) ].

(** A tensor of three integer pixel values, and the tensors that hold
    the one pixel 51 (a fifth of 255) and the one value 1.0. *)
Definition example_pixels : tensor :=
  {| shape := [3]; data := Float32.of_int <$> [0; 128; 255]%Z |}.

Definition pixel_51 : tensor := {| shape := [1]; data := [Float32.of_int 51] |}.

Definition value_one : tensor := {| shape := [1]; data := [Float32.one] |}.

Definition no_image : batch := ({| shape := []; data := [] |}, []).

(** ** Classes of binary32 values *)

(** Zeros and finite values, as opposed to infinities and NaN. *)
Definition is_number (v : float32) : bool :=
  match v with
  | S754_zero _ | S754_finite _ _ _ => true
  | _ => false
  end.

Definition sign_bit (v : float32) : bool :=
  match v with
  | S754_zero s | S754_infinity s | S754_finite s _ _ => s
  | S754_nan => false
  end.

(** A pixel intensity as the loader yields it after resizing: a binary32
    number of [[0, 255]], integer or not. *)
Definition is_intensity (v : float32) : Prop :=
  Float32.valid v = true /\ Float32.leb Float32.zero v = true /\
  Float32.leb v Float32.c255 = true.

(** A value of [[0, 1]]. *)
Definition is_unit_value (v : float32) : Prop :=
  Float32.valid v = true /\ Float32.leb Float32.zero v = true /\
  Float32.leb v Float32.one = true.

(** The least dividend whose quotient by 255.0 is surely a normal number:
    2^-118.  Below it the quotient is under 2^-126, where an arithmetic
    unit that flushes subnormal numbers to zero departs from [Float32.div],
    which underflows gradually as IEEE 754 has it. *)
Definition least_unflushed : float32 := S754_finite false 8388608 (-141).

(** A zero, or a number of at least 2^-118: dividing it by 255.0 meets
    no subnormal number, neither as dividend nor as quotient. *)
Definition has_normal_quotient (v : float32) : Prop :=
  (exists s, v = S754_zero s) \/ Float32.leb least_unflushed v = true.

(** A zero or a normal number. *)
Definition is_zero_or_normal (r : float32) : Prop :=
  (exists s, r = S754_zero s) \/
  (exists s m e, r = S754_finite s m e /\ Zpos (digits2_pos m) = Float32.prec).

(** ** The arguments of the traced calls, and where they come from *)

Section Chain.
Context {dataset model W : Type}.

Definition event_map_args (ev : event dataset model)
  : option (dataset * (tensor -> labels -> tensor * labels)) :=
  match ev with
  | Event (dataset_map ds f) _ => Some (ds, f)
  | _ => None
  end.

Definition event_compile_args (ev : event dataset model)
  : option (model * string * string * list string) :=
  match ev with
  | Event (compile m opt lo ms) _ => Some (m, opt, lo, ms)
  | _ => None
  end.

Definition event_fit_args (ev : event dataset model) : option (model * dataset * nat) :=
  match ev with
  | Event (fit m ds n) _ => Some (m, ds, n)
  | _ => None
  end.

Definition event_save_args (ev : event dataset model) : option (model * string) :=
  match ev with
  | Event (save m p) _ => Some (m, p)
  | _ => None
  end.

(** [raw] is the dataset the loader returned in the world [w]. *)
Definition loaded_from (h : handler dataset model W) (w : W) (raw : dataset) : Prop :=
  exists w1, h _ (image_dataset_from_directory data_dir img_size batch_size) w = (Ok raw, w1).

(** [ds] is what mapping [normalize] over the loaded dataset returned. *)
Definition normalized_from (h : handler dataset model W) (w : W) (ds : dataset) : Prop :=
  exists raw w1 w2,
    h _ (image_dataset_from_directory data_dir img_size batch_size) w = (Ok raw, w1) /\
    h _ (dataset_map raw normalize) w1 = (Ok ds, w2).

(** [m] is the model [Sequential] returned, after loading and mapping. *)
Definition declared_from (h : handler dataset model W) (w : W) (m : model) : Prop :=
  exists raw ds w1 w2 w3,
    h _ (image_dataset_from_directory data_dir img_size batch_size) w = (Ok raw, w1) /\
    h _ (dataset_map raw normalize) w1 = (Ok ds, w2) /\
    h _ (Sequential model_layers) w2 = (Ok m, w3).

End Chain.

(** * Facts *)

(** ** Division by 255.0 in binary32 is correctly rounded *)

Module Float32Facts.
Import Float32.
Local Open Scope Z_scope.

Lemma digits2_pos_bounds (p : positive) :
  2 ^ (Zpos (digits2_pos p) - 1) <= Zpos p < 2 ^ Zpos (digits2_pos p).
Proof.
  induction p as [p IH|p IH|]; simpl digits2_pos.
  - rewrite Pos2Z.inj_succ.
    replace (Z.succ (Zpos (digits2_pos p)) - 1) with (Z.succ (Zpos (digits2_pos p) - 1)) by lia.
    rewrite !Z.pow_succ_r by lia. lia.
  - rewrite Pos2Z.inj_succ.
    replace (Z.succ (Zpos (digits2_pos p)) - 1) with (Z.succ (Zpos (digits2_pos p) - 1)) by lia.
    rewrite !Z.pow_succ_r by lia. lia.
  - simpl. lia.
Qed.

Lemma digits2_pos_unique (p : positive) (d : Z) :
  2 ^ (d - 1) <= Zpos p < 2 ^ d -> Zpos (digits2_pos p) = d.
Proof.
  intros [Hlo Hhi]. pose proof (digits2_pos_bounds p) as [Blo Bhi].
  set (k := Zpos (digits2_pos p)) in *.
  assert (Hk : 0 < k) by (unfold k; lia).
  destruct (Z.lt_trichotomy k d) as [Hlt|[Heq|Hgt]]; [|exact Heq|].
  - assert (2 ^ k <= 2 ^ (d - 1)) by (apply Z.pow_le_mono_r; lia). lia.
  - assert (d < 0 \/ 0 <= d) as [Hn|Hn] by lia.
    + rewrite (Z.pow_neg_r 2 d) in Hhi by lia. lia.
    + assert (2 ^ d <= 2 ^ (k - 1)) by (apply Z.pow_le_mono_r; lia). lia.
Qed.

Lemma Zdigits2_unique (q d : Z) :
  0 < d -> 2 ^ (d - 1) <= q < 2 ^ d -> Zdigits2 q = d.
Proof.
  intros Hd Hq. assert (0 < 2 ^ (d - 1)) by (apply Z.pow_pos_nonneg; lia).
  destruct q as [|p|p]; try lia. simpl. now apply digits2_pos_unique.
Qed.

Lemma Zdigits2_upper (q d : Z) :
  0 <= d -> 0 <= q < 2 ^ d -> 0 <= Zdigits2 q <= d.
Proof.
  intros Hd [Hq0 Hq]. destruct q as [|p|p]; simpl; try lia.
  pose proof (digits2_pos_bounds p) as [Blo _].
  split; [lia|].
  destruct (Z_le_gt_dec (Zpos (digits2_pos p)) d) as [|Hgt]; [assumption|].
  assert (2 ^ d <= 2 ^ (Zpos (digits2_pos p) - 1)) by (apply Z.pow_le_mono_r; lia).
  lia.
Qed.

Lemma bounded_inv (mx : positive) (ex : Z) :
  bounded prec emax mx ex = true ->
  -149 <= ex <= 104 /\ Zpos mx < 2 ^ 24 /\ (-149 < ex -> 2 ^ 23 <= Zpos mx).
Proof.
  unfold bounded, canonical_mantissa, fexp, emin, prec, emax.
  intros H. apply andb_prop in H as [Hc He].
  apply Z.eqb_eq in Hc. apply Z.leb_le in He.
  pose proof (digits2_pos_bounds mx) as [Blo Bhi].
  set (d := Zpos (digits2_pos mx)) in *.
  assert (Hd : d <= 24) by lia.
  split; [lia|]. split.
  - assert (2 ^ d <= 2 ^ 24) by (apply Z.pow_le_mono_r; lia). lia.
  - intros Hn. assert (d = 24) as Hd24 by lia. rewrite Hd24 in Blo. exact Blo.
Qed.

Lemma bounded_intro (m : positive) (e : Z) :
  -149 <= e <= 104 -> Zpos m < 2 ^ 24 -> (-149 < e -> 2 ^ 23 <= Zpos m) ->
  bounded prec emax m e = true.
Proof.
  intros He Hhi Hlo. unfold bounded, canonical_mantissa, fexp, emin, prec, emax.
  apply andb_true_intro. split; [apply Z.eqb_eq|apply Z.leb_le; lia].
  destruct (Z.eq_dec e (-149)) as [->|Hne].
  - pose proof (Zdigits2_upper (Zpos m) 24 ltac:(lia) ltac:(lia)) as Hd. simpl in Hd. lia.
  - rewrite (digits2_pos_unique m 24) by (split; [apply Hlo|]; lia). lia.
Qed.

Lemma shr_1_m (mrs : shr_record) :
  0 <= shr_m mrs -> shr_m (shr_1 mrs) = shr_m mrs / 2.
Proof.
  destruct mrs as [m r s]. simpl. intros Hm.
  destruct m as [|p|p]; [reflexivity| |lia].
  destruct p as [p|p|]; simpl shr_m.
  - apply (Z.div_unique _ _ _ 1); lia.
  - apply (Z.div_unique _ _ _ 0); lia.
  - reflexivity.
Qed.

Lemma shr_1_inb (mrs : shr_record) (N D : Z) :
  0 < D -> inb mrs N D -> inb (shr_1 mrs) N (2 * D).
Proof.
  intros HD. destruct mrs as [m r s]. unfold inb. simpl shr_m; simpl shr_r; simpl shr_s.
  intros (Hm & Hb & Hl).
  destruct m as [|[p|p|]|p]; try lia; destruct r, s; simpl; nia.
Qed.

Lemma loc_of_record (m : Z) (l : location) :
  loc_of_shr_record (shr_record_of_loc m l) = l.
Proof. destruct l as [|[]]; reflexivity. Qed.

Lemma shr_m_record (m : Z) (l : location) : shr_m (shr_record_of_loc m l) = m.
Proof. destruct l as [|[]]; reflexivity. Qed.

Lemma round_nearest_even_inb (mrs : shr_record) (N D : Z) :
  0 < D -> inb mrs N D ->
  shr_m mrs <= round_nearest_even (shr_m mrs) (loc_of_shr_record mrs) <= shr_m mrs + 1 /\
  Z.abs (2 * (round_nearest_even (shr_m mrs) (loc_of_shr_record mrs) * D - N)) <= D.
Proof.
  intros HD. destruct mrs as [m r s]. unfold inb. simpl.
  intros (Hm & Hb & Hl).
  destruct r, s; simpl; try destruct (Z.even m); split; lia.
Qed.

Lemma shr_fexp_small (q e : Z) (l : location) :
  -149 <= e -> 0 <= q < 2 ^ 24 -> (-149 < e -> 2 ^ 23 <= q) ->
  shr_fexp prec emax q e l = (shr_record_of_loc q l, e).
Proof.
  intros He Hq Hn. unfold shr_fexp.
  assert (Hz : fexp prec emax (Zdigits2 q + e) - e = 0).
  { unfold fexp, emin, prec, emax.
    destruct (Z.eq_dec e (-149)) as [->|Hne].
    - pose proof (Zdigits2_upper q 24 ltac:(lia) Hq). lia.
    - rewrite (Zdigits2_unique q 24) by lia. lia. }
  rewrite Hz. reflexivity.
Qed.

Lemma shr_fexp_big (q e : Z) (l : location) :
  -149 <= e -> 2 ^ 24 <= q < 2 ^ 25 ->
  shr_fexp prec emax q e l = (shr_1 (shr_record_of_loc q l), e + 1).
Proof.
  intros He Hq. unfold shr_fexp.
  assert (Hz : fexp prec emax (Zdigits2 q + e) - e = 1).
  { unfold fexp, emin, prec, emax. rewrite (Zdigits2_unique q 25) by lia. lia. }
  rewrite Hz. reflexivity.
Qed.

Lemma round_aux_spec (s : bool) (q e : Z) (l : location) (N D : Z) :
  0 < D -> inb (shr_record_of_loc q l) N D ->
  -149 <= e <= 102 -> q < 2 ^ 25 -> (-149 < e -> 2 ^ 23 <= q) ->
  exists m e2,
    binary_round_aux prec emax s q e l = pack s m e2 /\
    canonical m e2 /\ e <= e2 <= e + 2 /\
    Z.abs (2 * (m * 2 ^ (e2 - e) * D - N)) <= 2 ^ (e2 - e) * D.
Proof.
  intros HD Hinb He Hq Hn. unfold binary_round_aux.
  assert (Hq0 : 0 <= q) by (destruct Hinb as [H _]; now rewrite shr_m_record in H).
  assert (Hfinal : forall m1 e1 (mrs : shr_record) k,
    shr_m mrs = m1 -> inb mrs N (k * D) -> 0 < k ->
    -149 <= e1 <= 103 -> m1 < 2 ^ 24 -> (-149 < e1 -> 2 ^ 23 <= m1) ->
    exists m e2,
      (let '(mrs'', e'') := shr_fexp prec emax
           (round_nearest_even (shr_m mrs) (loc_of_shr_record mrs)) e1 loc_Exact in
       match shr_m mrs'' with
       | 0 => S754_zero s
       | Zpos m0 => if e'' <=? emax - prec then S754_finite s m0 e'' else S754_infinity s
       | Zneg _ => S754_nan
       end) = pack s m e2 /\
      canonical m e2 /\ e1 <= e2 <= e1 + 1 /\
      Z.abs (2 * (m * 2 ^ (e2 - e1) * (k * D) - N)) <= 2 ^ (e2 - e1) * (k * D)).
  { intros m1 e1 mrs k Hm1 Hi Hk He1 Hm1hi Hm1lo.
    assert (HkD : 0 < k * D) by lia.
    destruct (round_nearest_even_inb mrs N (k * D) HkD Hi) as [Hr Herr].
    set (mr := round_nearest_even (shr_m mrs) (loc_of_shr_record mrs)) in *.
    assert (Hm10 : 0 <= m1) by (destruct Hi as [H _]; lia).
    destruct (Z_lt_ge_dec mr (2 ^ 24)) as [Hlt|Hge].
    - rewrite shr_fexp_small by lia. simpl shr_m.
      exists mr, e1. replace (e1 - e1) with 0 by lia.
      split; [|split; [|split]].
      + unfold pack. destruct mr as [|p|p]; try reflexivity; [|lia].
        unfold emax, prec. destruct (Z.leb_spec e1 (128 - 24)); [reflexivity|lia].
      + unfold canonical. lia.
      + lia.
      + rewrite Z.pow_0_r. rewrite !Z.mul_1_r, Z.mul_1_l. exact Herr.
    - assert (Hmr : mr = 2 ^ 24) by lia.
      rewrite shr_fexp_big by lia. rewrite Hmr.
      exists (2 ^ 23), (e1 + 1). replace (e1 + 1 - e1) with 1 by lia.
      split; [|split; [|split]].
      + simpl. unfold emax, prec. destruct (Z.leb_spec (e1 + 1) (128 - 24)); [reflexivity|lia].
      + unfold canonical. lia.
      + lia.
      + rewrite Hmr in Herr. lia. }
  destruct (Z_lt_ge_dec q (2 ^ 24)) as [Hlt|Hge].
  - rewrite shr_fexp_small by lia.
    destruct (Hfinal q e (shr_record_of_loc q l) 1) as (m & e2 & Heq & Hc & He2 & Herr);
      try lia; [apply shr_m_record|now rewrite Z.mul_1_l|].
    exists m, e2. rewrite Heq. rewrite Z.mul_1_l in Herr.
    split; [reflexivity|]. split; [exact Hc|]. split; [lia|exact Herr].
  - rewrite shr_fexp_big by lia.
    pose proof (shr_1_inb _ _ _ HD Hinb) as Hi1.
    pose proof (shr_1_m (shr_record_of_loc q l)) as Hm1. rewrite shr_m_record in Hm1.
    specialize (Hm1 Hq0).
    assert (Hdiv : 2 ^ 23 <= q / 2 < 2 ^ 24).
    { split; [apply Z.div_le_lower_bound|apply Z.div_lt_upper_bound]; lia. }
    destruct (Hfinal (q / 2) (e + 1) (shr_1 (shr_record_of_loc q l)) 2)
      as (m & e2 & Heq & Hc & He2 & Herr); try lia; try assumption.
    exists m, e2. rewrite Heq.
    split; [reflexivity|]. split; [exact Hc|]. split; [lia|].
    assert (Hp : 2 ^ (e2 - e) = 2 * 2 ^ (e2 - (e + 1))).
    { replace (e2 - e) with (Z.succ (e2 - (e + 1))) by lia. rewrite Z.pow_succ_r by lia. reflexivity. }
    rewrite Hp.
    replace (m * (2 * 2 ^ (e2 - (e + 1))) * D) with (m * 2 ^ (e2 - (e + 1)) * (2 * D)) by ring.
    replace (2 * 2 ^ (e2 - (e + 1)) * D) with (2 ^ (e2 - (e + 1)) * (2 * D)) by ring.
    exact Herr.
Qed.

Lemma c255_eq : c255 = S754_finite false 16711680 (-16).
Proof. reflexivity. Qed.

Lemma inb_new_location (q r N : Z) :
  0 <= q -> 0 <= r < 16711680 -> N = q * 16711680 + r ->
  inb (shr_record_of_loc q (new_location 16711680 r)) N 16711680.
Proof.
  intros Hq Hr ->. unfold new_location. change (Z.even 16711680) with true.
  cbv beta iota. unfold new_location_even.
  destruct (Z.eqb_spec r 0) as [->|Hne].
  - unfold inb; simpl. lia.
  - destruct (Z.compare_spec (2 * r) 16711680); unfold inb; simpl; lia.
Qed.

Lemma div_core_255 (mx : positive) (ex : Z) :
  bounded prec emax mx ex = true ->
  SFdiv_core_binary prec emax (Zpos mx) ex 16711680 (-16) =
    (Zpos mx * 2 ^ Z.min 24 (ex + 165) / 16711680,
     Z.max (ex - 8) (-149),
     new_location 16711680 (Zpos mx * 2 ^ Z.min 24 (ex + 165) mod 16711680)).
Proof.
  intros Hb. destruct (bounded_inv _ _ Hb) as (Hex & Hhi & Hlo).
  unfold SFdiv_core_binary.
  change (Zdigits2 16711680) with 24. cbn [Zdigits2].
  assert (Hd : 0 < Zpos (digits2_pos mx) <= 24 /\ (-149 < ex -> Zpos (digits2_pos mx) = 24)).
  { pose proof (Zdigits2_upper (Zpos mx) 24 ltac:(lia) ltac:(lia)) as Hu. simpl in Hu.
    split; [lia|]. intros Hn. apply digits2_pos_unique. lia. }
  assert (He' : Z.min (fexp prec emax (Zpos (digits2_pos mx) + ex - (24 + -16))) (ex - -16)
                = Z.max (ex - 8) (-149)).
  { unfold fexp, emin, prec, emax. lia. }
  rewrite He'.
  assert (Hs : ex - -16 - Z.max (ex - 8) (-149) = Z.min 24 (ex + 165)) by lia.
  rewrite Hs.
  destruct (Z.min 24 (ex + 165)) as [|p|p] eqn:Es; try lia.
  rewrite Z.shiftl_mul_pow2 by lia.
  unfold Z.div, Z.modulo.
  destruct (Z.div_eucl (Zpos mx * 2 ^ Zpos p) 16711680) as [q r]. reflexivity.
Qed.

(** Division of a finite binary32 number by 255.0 is correctly rounded:
    the result is canonical and within half a unit in its last place of
    the exact quotient (stated in units of 2^-149). *)
Lemma div_255_finite (s : bool) (mx : positive) (ex : Z) :
  bounded prec emax mx ex = true ->
  exists m e,
    div (S754_finite s mx ex) c255 = pack s m e /\
    canonical m e /\
    Z.abs (2 * (255 * (m * 2 ^ (e + 149)) - Zpos mx * 2 ^ (ex + 149)))
      <= 255 * 2 ^ (e + 149).
Proof.
  intros Hb. destruct (bounded_inv _ _ Hb) as (Hex & Hhi & Hlo).
  unfold div. rewrite c255_eq. cbn [SFdiv]. rewrite div_core_255 by assumption.
  rewrite xorb_false_r.
  set (sh := Z.min 24 (ex + 165)).
  set (N := Zpos mx * 2 ^ sh).
  assert (Hsh : 16 <= sh <= 24) by (unfold sh; lia).
  assert (HN0 : 0 <= N) by (unfold N; apply Z.mul_nonneg_nonneg; [lia|apply Z.pow_nonneg; lia]).
  pose proof (Z.div_mod N 16711680 ltac:(lia)) as Hdm.
  pose proof (Z.mod_pos_bound N 16711680 ltac:(lia)) as Hmod.
  assert (Hq0 : 0 <= N / 16711680) by (apply Z.div_pos; lia).
  assert (Hpow : 2 ^ sh <= 2 ^ 24) by (apply Z.pow_le_mono_r; lia).
  assert (HNhi : N < 2 ^ 24 * 2 ^ 24).
  { unfold N. apply Z.le_lt_trans with (Zpos mx * 2 ^ 24).
    - apply Z.mul_le_mono_nonneg_l; lia.
    - apply Z.mul_lt_mono_pos_r; lia. }
  assert (Hqhi : N / 16711680 < 2 ^ 25) by (apply Z.div_lt_upper_bound; lia).
  assert (Hqlo : -149 < Z.max (ex - 8) (-149) -> 2 ^ 23 <= N / 16711680).
  { intros Hn. assert (Hs24 : sh = 24) by (unfold sh; lia).
    apply Z.div_le_lower_bound; [lia|]. unfold N. rewrite Hs24.
    specialize (Hlo ltac:(lia)). lia. }
  destruct (round_aux_spec s (N / 16711680) (Z.max (ex - 8) (-149))
              (new_location 16711680 (N mod 16711680)) N 16711680)
    as (m & e2 & Heq & Hc & He2 & Herr); try lia.
  { apply inb_new_location; lia. }
  exists m, e2. split; [exact Heq|]. split; [exact Hc|].
  set (e1 := Z.max (ex - 8) (-149)) in *.
  set (t := e1 + 149).
  assert (Ht : 0 <= t) by (unfold t, e1; lia).
  assert (He2' : 2 ^ (e2 + 149) = 2 ^ t * 2 ^ (e2 - e1)).
  { rewrite <- Z.pow_add_r by lia. f_equal. unfold t. lia. }
  assert (Hex' : 2 ^ (ex + 149) = 2 ^ t * 2 ^ (sh - 16)).
  { rewrite <- Z.pow_add_r by lia. f_equal. unfold t, e1, sh. lia. }
  assert (HN : N = Zpos mx * 2 ^ (sh - 16) * 65536).
  { unfold N. replace sh with ((sh - 16) + 16) at 1 by lia.
    rewrite Z.pow_add_r by lia. change (2 ^ 16) with 65536. ring. }
  rewrite He2', Hex'.
  set (A := 2 ^ (e2 - e1)) in *. set (Y := Zpos mx * 2 ^ (sh - 16)) in *.
  set (P := 2 ^ t).
  assert (HP : 0 < P) by (apply Z.pow_pos_nonneg; lia).
  assert (HA : 0 < A) by (apply Z.pow_pos_nonneg; lia).
  assert (H1 : Z.abs (2 * (255 * (m * A) - Y)) <= 255 * A) by lia.
  replace (2 * (255 * (m * (P * A)) - Zpos mx * (P * 2 ^ (sh - 16))))
    with (P * (2 * (255 * (m * A) - Y))) by (unfold Y; ring).
  replace (255 * (P * A)) with (P * (255 * A)) by ring.
  rewrite Z.abs_mul, (Z.abs_eq P) by lia.
  apply Z.mul_le_mono_nonneg_l; lia.
Qed.

Lemma units_pack (m e : Z) : 0 <= m -> units (pack false m e) = m * 2 ^ (e + 149).
Proof. intros Hm. destruct m as [|p|p]; simpl; lia. Qed.

Lemma valid_pack (s : bool) (m e : Z) : canonical m e -> valid (pack s m e) = true.
Proof.
  intros (He & Hm & Hn). destruct m as [|p|p]; try reflexivity.
  simpl. apply bounded_intro; lia.
Qed.

(** On canonical positive numbers, [leb] is the order of the values. *)
Lemma leb_finite_units (mx : positive) (ex : Z) (mB : positive) (eB : Z) :
  bounded prec emax mx ex = true -> bounded prec emax mB eB = true ->
  leb (S754_finite false mx ex) (S754_finite false mB eB) = true ->
  Zpos mx * 2 ^ (ex + 149) <= Zpos mB * 2 ^ (eB + 149).
Proof.
  intros Hx HB. destruct (bounded_inv _ _ Hx) as (Hex & Hxhi & Hxlo).
  destruct (bounded_inv _ _ HB) as (HeB & HBhi & HBlo).
  unfold leb, SFleb, SFcompare.
  destruct (Z.compare_spec ex eB) as [->|Hlt|Hgt].
  - change (Pos.compare_cont Eq mx mB) with (Pos.compare mx mB).
    destruct (Pos.compare_spec mx mB); try discriminate; intros _;
      apply Z.mul_le_mono_nonneg_r; try lia; apply Z.pow_nonneg; lia.
  - intros _.
    assert (HK : 2 ^ (eB + 149) = 2 ^ (eB - ex) * 2 ^ (ex + 149)).
    { rewrite <- Z.pow_add_r by lia. f_equal. lia. }
    assert (H2 : 2 ^ 1 <= 2 ^ (eB - ex)) by (apply Z.pow_le_mono_r; lia).
    assert (HP : 0 < 2 ^ (ex + 149)) by (apply Z.pow_pos_nonneg; lia).
    rewrite HK. specialize (HBlo ltac:(lia)).
    change (2 ^ 1) with 2 in H2. nia.
  - discriminate.
Qed.

(** The quotient by 255.0 of a number of [[0, X]] lies in [[0, B]]
    whenever the exact quotient [X / 255] does, and is within half a unit
    in the last place of [B] of the exact quotient. *)
Lemma div_255_bounds (x : float32) (mX : positive) (eX : Z) (mB : positive) (eB : Z) :
  valid x = true -> leb zero x = true -> leb x (S754_finite false mX eX) = true ->
  bounded prec emax mX eX = true -> bounded prec emax mB eB = true ->
  Zpos mB + 1 < 2 ^ 24 ->
  Zpos mX * 2 ^ (eX + 149) <= 255 * (Zpos mB * 2 ^ (eB + 149)) ->
  valid (div x c255) = true /\
  leb zero (div x c255) = true /\
  leb (div x c255) (S754_finite false mB eB) = true /\
  Z.abs (2 * (255 * units (div x c255) - units x)) <= 255 * 2 ^ (eB + 149).
Proof.
  intros Hv H0 HX HbX HbB HmB Hle.
  destruct (bounded_inv _ _ HbB) as (HeB & HBhi & HBlo).
  assert (HPB : 0 < 2 ^ (eB + 149)) by (apply Z.pow_pos_nonneg; lia).
  destruct x as [s|s| |s mx ex].
  - unfold div. rewrite c255_eq. simpl. repeat split; try (destruct s; reflexivity). lia.
  - destruct s; discriminate.
  - discriminate.
  - destruct s; [discriminate|].
    simpl in Hv. pose proof (leb_finite_units _ _ _ _ Hv HbX HX) as HU.
    destruct (div_255_finite false mx ex Hv) as (m & e & Heq & Hc & Herr).
    rewrite Heq. rewrite units_pack by (destruct Hc as (_ & ? & _); lia).
    destruct Hc as (He & Hm & Hn).
    assert (HPe : 0 < 2 ^ (e + 149)) by (apply Z.pow_pos_nonneg; lia).
    change (units (S754_finite false mx ex)) with (1 * (Zpos mx * 2 ^ (ex + 149))).
    rewrite Z.mul_1_l.
    set (U := Zpos mx * 2 ^ (ex + 149)) in *.
    set (Pe := 2 ^ (e + 149)) in *. set (PB := 2 ^ (eB + 149)) in *.
    assert (Hcmp : e < eB \/ (e = eB /\ m <= Zpos mB)).
    { destruct (Z.lt_trichotomy e eB) as [Hlt|[Heq'|Hgt]]; [now left| |].
      - right. split; [assumption|]. unfold Pe, PB in *. rewrite Heq' in *. nia.
      - exfalso.
        assert (HK : Pe = 2 ^ (e - eB) * PB).
        { unfold Pe, PB. rewrite <- Z.pow_add_r by lia. f_equal. lia. }
        assert (H2 : 2 ^ 1 <= 2 ^ (e - eB)) by (apply Z.pow_le_mono_r; lia).
        change (2 ^ 1) with 2 in H2. specialize (Hn ltac:(lia)).
        set (K := 2 ^ (e - eB)) in *.
        assert (H3 : (2 * m - 1) * K * PB <= 2 * Zpos mB * PB) by nia.
        assert (H4 : (2 * m - 1) * K <= 2 * Zpos mB) by nia.
        nia. }
    split; [apply (valid_pack false); unfold canonical; lia|].
    split; [destruct m as [|q|q]; reflexivity|].
    split.
    + destruct m as [|q|q]; [reflexivity| |lia].
      unfold pack, leb, SFleb, SFcompare.
      destruct Hcmp as [Hlt|[-> Hmle]].
      * apply Z.compare_lt_iff in Hlt. rewrite Hlt. reflexivity.
      * rewrite Z.compare_refl.
        change (Pos.compare_cont Eq q mB) with (Pos.compare q mB).
        destruct (Pos.compare_spec q mB); try reflexivity. lia.
    + assert (Pe <= PB); [|lia].
      unfold Pe, PB. apply Z.pow_le_mono_r; lia.
Qed.

End Float32Facts.

(** ** The script against any implementation of the framework *)

Section AnyFramework.
Context {dataset model W : Type}.
Implicit Types (h : handler dataset model W) (w : W).

(** Splits on the outcome of the next framework call of the run. *)
Ltac next_call h :=
  match goal with
  | |- context [h ?A ?c ?w] => destruct (h A c w) as [[?|?] ?]
  end.

Ltac run_script h := unfold main; cbn [run]; repeat (next_call h; cbn [run]).

(** Goes through the elements of an explicit list that [Hin] says the
    goal's entry belongs to. *)
Ltac mem_cases Hin :=
  repeat (apply elem_of_cons in Hin as [Hin|Hin];
          [first [discriminate Hin | injection Hin as <-; reflexivity]|]);
  apply elem_of_nil in Hin; destruct Hin.

(** C1. The layers given to [Sequential] are the same in every run,
    whatever the dataset loader returned: the output layer has 2 units,
    which is the number of classes exactly when there are 2 classes. *)
Theorem output_width_is_hard_coded h w (n_classes : nat) :
  Forall (fun ls => ls = model_layers) (omap event_layers (run h main w).2) /\
  output_units model_layers = Some 2 /\
  (output_units model_layers = Some n_classes <-> n_classes = 2).
Proof.
  split; [|split; [reflexivity|]].
  - run_script h; cbn; repeat constructor.
  - cbn. split; [intros [= <-]; reflexivity|intros ->; reflexivity].
Qed.

(** C2. The declared model is the layer sequence of the specification,
    with output width 2, and nothing else: seven layer constructors that
    read, in order, input 224x224x3, conv(32,3x3), ReLU, max-pool,
    conv(64,3x3), ReLU, max-pool, flatten, dense(128), ReLU, dense(2),
    softmax; every run declares this model. *)
Theorem model_is_the_fixed_sequence h w :
  describe model_layers = spec_sequence 2 /\
  length model_layers = 7 /\
  Forall (fun ls => describe ls = spec_sequence 2) (omap event_layers (run h main w).2).
Proof.
  split; [reflexivity|]. split; [reflexivity|].
  run_script h; cbn; repeat constructor.
Qed.

(** C6. Whatever the framework does, the calls of a run are an initial
    segment of load, map, Sequential, compile, fit, save, in this order;
    each is made at most once; a run goes on only after a call returned,
    and ends with [Ok] exactly when all six returned.  In particular
    [save] is called only after [fit] returned. *)
Theorem control_flow_is_sequential h w :
  exists k,
    k <= 6 /\
    event_tag <$> (run h main w).2 = trace_upto k /\
    (k = 6 <-> (run h main w).1.1 = Ok tt) /\
    NoDup (fst <$> trace_upto k) /\
    (forall b, (ESave, b) ∈ trace_upto k ->
       trace_upto k = [(ELoad, true); (EMap, true); (ESequential, true);
                       (ECompile, true); (EFit, true); (ESave, b)]).
Proof.
  assert (Hsave : forall k b, k <= 6 -> (ESave, b) ∈ trace_upto k ->
    trace_upto k = [(ELoad, true); (EMap, true); (ESequential, true);
                    (ECompile, true); (EFit, true); (ESave, b)]).
  { intros k b Hk.
    do 7 (destruct k as [|k]; [cbn; intros Hin; mem_cases Hin|]). lia. }
  assert (Hdup : forall k, k <= 6 -> NoDup (fst <$> trace_upto k)).
  { intros k Hk.
    do 7 (destruct k as [|k]; [apply (bool_decide_unpack _); vm_compute; exact I|]). lia. }
  run_script h.
  7: exists 0. 6: exists 1. 5: exists 2. 4: exists 3. 3: exists 4. 2: exists 5. 1: exists 6.
  all: (split; [lia|]); (split; [reflexivity|]);
    (split; [cbn; split; [try lia; try reflexivity|try discriminate; try reflexivity]|]);
    (split; [apply Hdup; lia|intros b; apply Hsave; lia]).
Qed.

End AnyFramework.

(** ** The reference implementation *)

Section ReferenceFacts.
Context `{Backend}.
Implicit Types (w : world) (bs ds : list batch) (st : list step).

Lemma apply_steps_app {P : Type} (f : P -> batch -> result P) (p q : P) bs bs' :
  apply_steps f p bs = Ok q -> apply_steps f p (bs ++ bs') = apply_steps f q bs'.
Proof.
  revert p. induction bs as [|b bs IH]; intros p; cbn.
  - intros [= ->]. reflexivity.
  - destruct (f p b) as [p'|e]; [apply IH|discriminate].
Qed.

(** One pass: every step taken is a step of this pass with the given
    optimizer and loss, on a batch of the dataset; a pass that does not
    raise takes one step per batch, in order. *)
Lemma train_epoch_spec (e : nat) (opt : optimizer) (lo : loss) (ls : list layer) bs :
  forall (p q : params) (ex : option exception) st,
  train_epoch e opt lo ls p bs = (q, ex, st) ->
  Forall (fun s => step_epoch s = e /\ step_optimizer s = opt /\ step_loss s = lo /\
                   step_batch s ∈ bs) st /\
  (ex = None -> st = Step e opt lo <$> bs /\
                apply_steps (train_step opt lo ls) p bs = Ok q).
Proof.
  induction bs as [|b bs IH]; intros p q ex st; cbn.
  - intros [= <- <- <-]. split; [constructor|]. intros _. split; reflexivity.
  - destruct (train_step opt lo ls p b) as [p'|e'].
    + destruct (train_epoch e opt lo ls p' bs) as [[q' ex'] st'] eqn:E.
      intros [= <- <- <-]. destruct (IH _ _ _ _ E) as [Hall Hok].
      split.
      * constructor; [cbn; repeat split; apply list_elem_of_here|].
        eapply Forall_impl; [exact Hall|]. cbn. intros s (? & ? & ? & ?).
        repeat split; try assumption. now apply list_elem_of_further.
      * intros Hnone. destruct (Hok Hnone) as [-> Hq]. split; [reflexivity|exact Hq].
    + intros [= <- <- <-]. split; [|discriminate].
      constructor; [cbn; repeat split; apply list_elem_of_here|constructor].
Qed.

Lemma train_epochs_spec (opt : optimizer) (lo : loss) (ls : list layer) bs (n : nat) :
  forall (e : nat) (p q : params) (ex : option exception) st,
  train_epochs n e opt lo ls p bs = (q, ex, st) ->
  Forall (fun s => e <= step_epoch s < e + n /\ step_optimizer s = opt /\
                   step_loss s = lo /\ step_batch s ∈ bs) st /\
  (ex = None -> st = concat ((fun k => Step k opt lo <$> bs) <$> seq e n) /\
                apply_steps (train_step opt lo ls) p (concat (replicate n bs)) = Ok q).
Proof.
  induction n as [|n IH]; intros e p q ex st; cbn [train_epochs].
  - intros [= <- <- <-]. split; [constructor|]. intros _. split; reflexivity.
  - destruct (train_epoch e opt lo ls p bs) as [[p' ex'] st'] eqn:E.
    destruct (train_epoch_spec _ _ _ _ _ _ _ _ _ E) as [Hall Hok].
    assert (Hall' : Forall (fun s => e <= step_epoch s < e + S n /\ step_optimizer s = opt /\
                                     step_loss s = lo /\ step_batch s ∈ bs) st').
    { eapply Forall_impl; [exact Hall|]. cbn. intros s (? & ? & ? & ?).
      repeat split; try assumption; lia. }
    destruct ex' as [e'|].
    + intros [= <- <- <-]. split; [exact Hall'|discriminate].
    + destruct (train_epochs n (S e) opt lo ls p' bs) as [[q' ex''] st''] eqn:E'.
      intros [= <- <- <-]. destruct (IH _ _ _ _ _ E') as [Hall'' Hok''].
      destruct (Hok eq_refl) as [-> Hp'].
      split.
      * apply Forall_app. split; [exact Hall'|].
        eapply Forall_impl; [exact Hall''|]. cbn. intros s (? & ? & ? & ?).
        repeat split; try assumption; lia.
      * intros Hnone. destruct (Hok'' Hnone) as [-> Hq].
        split; [reflexivity|]. cbn [replicate concat].
        rewrite (apply_steps_app _ _ _ _ _ Hp'). exact Hq.
Qed.

(** A run whose dataset loader raises stops there. *)
Lemma run_main_not_loaded w (e : exception) :
  keras_load w data_dir img_size batch_size = Raise e ->
  run keras main w =
    (Raise e, w, [Event (image_dataset_from_directory data_dir img_size batch_size) false]).
Proof. intros Hload. unfold main. cbn [run keras]. rewrite Hload. reflexivity. Qed.

(** A run whose dataset loader returns [bs]: the model object is created
    after the objects already alive, compiled with Adam and the sparse
    categorical cross-entropy, trained on the rescaled batches, and written
    out if training did not raise. *)
Lemma run_main_loaded w bs (p : params) (ex : option exception) st :
  keras_load w data_dir img_size batch_size = Ok bs ->
  trained (keras_map bs normalize) = (p, ex, st) ->
  let ds := keras_map bs normalize in
  let m := length (heap w) in
  let o := ModelObject model_layers p
             (Some (Adam, SparseCategoricalCrossentropy, ["accuracy"])) in
  let w_fit := World (directories w) (files w) (unwritable w) (heap w ++ [o])
                 (steps w ++ st) in
  let called : list (event (list batch) nat) :=
    [Event (image_dataset_from_directory data_dir img_size batch_size) true;
     Event (dataset_map bs normalize) true;
     Event (Sequential model_layers) true;
     Event (compile m "adam" "sparse_categorical_crossentropy" ["accuracy"]) true] in
  run keras main w =
    match ex with
    | Some e => (Raise e, w_fit, called ++ [Event (fit m ds 5) false])
    | None =>
        if decide ("leaf_model.h5" ∈ unwritable w)
        then (Raise IOError, w_fit,
              called ++ [Event (fit m ds 5) true; Event (save m "leaf_model.h5") false])
        else (Ok tt,
              World (directories w)
                (<["leaf_model.h5" := ModelFile model_layers p]> (files w))
                (unwritable w) (heap w ++ [o]) (steps w ++ st),
              called ++ [Event (fit m ds 5) true; Event (save m "leaf_model.h5") true])
    end.
Proof.
  intros Hload Htrained. unfold trained in Htrained.
  unfold main. cbn [run keras]. rewrite Hload.
  cbn [run keras keras_sequential].
  unfold keras_compile. cbn [heap].
  rewrite list_lookup_middle by reflexivity.
  cbn [optimizer_of_name loss_of_name String.eqb Ascii.eqb Bool.eqb layers_of weights].
  cbn [run keras]. unfold keras_fit, set_heap. cbn [heap].
  rewrite (insert_app_r_alt (heap w)) by lia. rewrite Nat.sub_diag. cbn [insert list_insert].
  rewrite list_lookup_middle by reflexivity.
  cbn [compiled layers_of weights]. rewrite Htrained.
  cbn [directories files unwritable heap steps].
  rewrite (insert_app_r_alt (heap w)) by lia. rewrite Nat.sub_diag. cbn [insert list_insert].
  destruct ex as [e|]; [reflexivity|].
  cbn [run keras]. unfold keras_save. cbn [heap unwritable].
  rewrite list_lookup_middle by reflexivity.
  destruct (decide ("leaf_model.h5" ∈ unwritable w)); reflexivity.
Qed.

Lemma full_schedule_length_from (opt : optimizer) (lo : loss) bs (n e : nat) :
  length (concat ((fun k => Step k opt lo <$> bs) <$> seq e n)) = n * length bs.
Proof.
  revert e. induction n as [|n IH]; intros e; [reflexivity|].
  cbn. rewrite length_app, length_fmap, IH. reflexivity.
Qed.

(** C5. A run that ends without an exception has called [fit] once, for
    5 epochs, on all batches the loader returned (none is held out), and
    [save] once, after it: the training steps of the run are exactly five
    full passes over the rescaled dataset, neither fewer nor more. *)
Theorem training_runs_five_full_epochs w :
  (run keras main w).1.1 = Ok tt ->
  exists bs,
    keras_load w data_dir img_size batch_size = Ok bs /\
    steps (run keras main w).1.2 =
      steps w ++ full_schedule 5 Adam SparseCategoricalCrossentropy (keras_map bs normalize) /\
    length (full_schedule 5 Adam SparseCategoricalCrossentropy (keras_map bs normalize))
      = 5 * length bs /\
    omap event_epochs (run keras main w).2 = [5] /\
    omap event_path (run keras main w).2 = ["leaf_model.h5"] /\
    event_tag <$> (run keras main w).2 = trace_upto 6.
Proof.
  destruct (keras_load w data_dir img_size batch_size) as [bs|e] eqn:Hload.
  - destruct (trained (keras_map bs normalize)) as [[p ex] st] eqn:Ht.
    rewrite (run_main_loaded w bs p ex st Hload Ht).
    destruct (train_epochs_spec _ _ _ _ _ _ _ _ _ _ Ht) as [_ Hok].
    destruct ex as [e|]; [discriminate|].
    destruct (Hok eq_refl) as [Hst _].
    destruct (decide ("leaf_model.h5" ∈ unwritable w)); [discriminate|].
    intros _. exists bs. split; [reflexivity|]. split; [cbn; now rewrite Hst|].
    split; [|repeat split].
    unfold full_schedule. rewrite full_schedule_length_from.
    unfold keras_map. now rewrite length_fmap.
  - rewrite (run_main_not_loaded w e Hload). discriminate.
Qed.

(** C8. When loading and training went through, [save] is the last call
    of the run, on the path "leaf_model.h5".  If the path can be written,
    the run ends without an exception and the file holds the layers and the
    trained parameter values of the model, whatever was there before, no
    other file being touched; if it cannot, the run ends with an I/O error,
    after [fit] has returned, and no file has changed. *)
Theorem persister_contract w bs (p : params) st :
  keras_load w data_dir img_size batch_size = Ok bs ->
  trained (keras_map bs normalize) = (p, None, st) ->
  ("leaf_model.h5" ∉ unwritable w ->
     (run keras main w).1.1 = Ok tt /\
     files (run keras main w).1.2 !! "leaf_model.h5" = Some (ModelFile model_layers p) /\
     (forall path : string, path <> "leaf_model.h5" ->
        files (run keras main w).1.2 !! path = files w !! path) /\
     omap event_path (run keras main w).2 = ["leaf_model.h5"] /\
     event_tag <$> (run keras main w).2 = trace_upto 6) /\
  ("leaf_model.h5" ∈ unwritable w ->
     (run keras main w).1.1 = Raise IOError /\
     files (run keras main w).1.2 = files w /\
     omap event_path (run keras main w).2 = ["leaf_model.h5"] /\
     event_tag <$> (run keras main w).2 = trace_upto 5).
Proof.
  intros Hload Ht. rewrite (run_main_loaded w bs p None st Hload Ht).
  destruct (decide ("leaf_model.h5" ∈ unwritable w)) as [Hin|Hnin].
  - split; [intros Hn; contradiction|]. intros _. repeat split.
  - split; [|intros Hi; contradiction]. intros _. cbn.
    split; [reflexivity|]. split; [apply lookup_insert_eq|].
    split; [|split; reflexivity].
    intros path Hne. apply lookup_insert_ne. congruence.
Qed.

End ReferenceFacts.

(** ** The rescaling lambda *)

Section Rescaling.
Import Float32 Float32Facts.
Local Open Scope Z_scope.

Lemma tensor_div_lookup (x : tensor) (c : float32) (i : nat) :
  data (tensor_div x c) !! i = (fun v => div v c) <$> data x !! i.
Proof. unfold tensor_div. cbn. apply list_lookup_fmap. Qed.

(** The 256 integer pixel values, one by one. *)
Lemma pixel_table : forallb pixel_check (seq 0 256) = true.
Proof. vm_compute. reflexivity. Qed.

Lemma pixel_checked (p : Z) : 0 <= p <= 255 -> pixel_check (Z.to_nat p) = true.
Proof.
  intros Hp. pose proof pixel_table as Ht.
  rewrite forallb_forall in Ht. apply Ht, in_seq. lia.
Qed.

(** The ends of the pixel range go to 0.0 and 1.0 exactly. *)
Lemma rescale_endpoints : div (of_int 0) c255 = zero /\ div (of_int 255) c255 = one.
Proof. split; vm_compute; reflexivity. Qed.

(** A pixel of [[0, 255]] is rescaled into [[0, 1]], within 2^-24 of the
    exact quotient. *)
Lemma rescale_pixel (v : float32) :
  valid v = true -> leb zero v = true -> leb v c255 = true ->
  valid (div v c255) = true /\ leb zero (div v c255) = true /\
  leb (div v c255) one = true /\
  Z.abs (2 * (255 * units (div v c255) - units v)) <= 255 * 2 ^ 126.
Proof.
  intros Hv H0 H1.
  apply (div_255_bounds v 16711680 (-16) 8388608 (-23)); try assumption; reflexivity.
Qed.

(** A value of [[0, 1]] is rescaled into [[0, 1/255]] (the binary32
    number nearest to 1/255), within 2^-32 of the exact quotient. *)
Lemma rescale_unit (p : float32) :
  valid p = true -> leb zero p = true -> leb p one = true ->
  valid (div p c255) = true /\ leb zero (div p c255) = true /\
  leb (div p c255) (div one c255) = true /\
  Z.abs (2 * (255 * units (div p c255) - units p)) <= 255 * 2 ^ 118.
Proof.
  intros Hv H0 H1.
  change (div one c255) with (S754_finite false 8421505 (-31)).
  apply (div_255_bounds p 8388608 (-23) 8421505 (-31)); try assumption; try reflexivity.
  apply Z.leb_le. vm_compute. reflexivity.
Qed.

(** C3. The lambda touches nothing but its argument and works element by
    element: the shape is kept, and where the input tensor holds an
    integer pixel value p of 0..255, the output tensor holds p/255.0, a
    binary32 number of [[0, 1]] within 2^-25 of p/255. *)
Theorem normalize_maps_pixels_into_unit_interval
    (x : tensor) (y : labels) (i : nat) (p : Z) :
  0 <= p <= 255 -> data x !! i = Some (of_int p) ->
  exists r,
    data (normalize x y).1 !! i = Some r /\
    r = div (of_int p) c255 /\
    leb zero r = true /\ leb r one = true /\
    2 ^ 25 * Z.abs (255 * units r - p * 2 ^ 149) <= 255 * 2 ^ 149 /\
    shape (normalize x y).1 = shape x /\
    length (data (normalize x y).1) = length (data x).
Proof.
  intros Hp Hx. exists (div (of_int p) c255).
  pose proof (pixel_checked p Hp) as Hc. unfold pixel_check in Hc.
  rewrite Z2Nat.id in Hc by lia. cbv zeta in Hc.
  apply andb_prop in Hc as [Hc Herr]. apply andb_prop in Hc as [Hc H1].
  apply andb_prop in Hc as [_ H0]. apply Z.leb_le in Herr.
  split; [|repeat split; try assumption].
  - unfold normalize. cbn [fst]. rewrite tensor_div_lookup, Hx. reflexivity.
  - unfold normalize, tensor_div. cbn. now rewrite length_fmap.
Qed.

(** C9, as the code has it. Rescaling a tensor whose element p is already
    in [[0, 1]] gives an element of [[0, 1/255]] (1/255 rounded to
    binary32), within 2^-32 of p/255; when the tensor is itself the
    rescaling of a tensor with the pixel v of [[0, 255]] there, the element
    is within 2^-30 of v/255^2.  It need not be the binary32 quotient of v
    by 255^2: each of the two divisions rounds. *)
Theorem renormalization_is_near_zero (x : tensor) (y : labels) (i : nat) (p : float32) :
  data x !! i = Some p -> valid p = true -> leb zero p = true -> leb p one = true ->
  exists r,
    data (normalize x y).1 !! i = Some r /\
    r = div p c255 /\
    leb zero r = true /\ leb r (div one c255) = true /\
    Z.abs (2 * (255 * units r - units p)) <= 255 * 2 ^ 118 /\
    forall (x0 : tensor) (v : float32),
      x = (normalize x0 y).1 -> data x0 !! i = Some v ->
      valid v = true -> leb zero v = true -> leb v c255 = true ->
      Z.abs (65025 * units r - units v) <= 65025 * 2 ^ 119.
Proof.
  intros Hx Hv H0 H1. exists (div p c255).
  destruct (rescale_unit p Hv H0 H1) as (_ & Hr0 & Hr1 & Herr).
  split; [unfold normalize; cbn [fst]; rewrite tensor_div_lookup, Hx; reflexivity|].
  split; [reflexivity|]. split; [exact Hr0|]. split; [exact Hr1|]. split; [exact Herr|].
  intros x0 v -> Hx0 Hvv Hv0 Hv1.
  unfold normalize in Hx. cbn [fst] in Hx. rewrite tensor_div_lookup, Hx0 in Hx.
  injection Hx as <-.
  destruct (rescale_pixel v Hvv Hv0 Hv1) as (_ & _ & _ & Herr1).
  lia.
Qed.

(** C10. The lambda returns the labels it was given; mapped over a
    dataset, it turns the batch (x, y) into (x/255.0, y), so that the
    labels of the dataset are unchanged. *)
Theorem normalize_leaves_labels_unchanged (ds : list batch) (i : nat) (x : tensor) (y : labels) :
  ds !! i = Some (x, y) ->
  keras_map ds normalize !! i = Some (tensor_div x c255, y) /\
  (normalize x y).2 = y /\
  snd <$> keras_map ds normalize = snd <$> ds.
Proof.
  intros Hi. unfold keras_map. split; [|split].
  - rewrite list_lookup_fmap. unfold batch in *. rewrite Hi. reflexivity.
  - reflexivity.
  - rewrite <- list_fmap_compose. apply list_fmap_ext. intros j [x' y'] _. reflexivity.
Qed.

End Rescaling.

(** ** The theorems at work on the examples *)

Section Examples.
Import Float32.
Local Open Scope Z_scope.

Lemma normalize_maps_pixels_witness :
  0 <= 128 <= 255 /\
  exists r,
    data (normalize example_pixels []).1 !! 1%nat = Some r /\
    r = div (of_int 128) c255 /\
    leb zero r = true /\ leb r one = true /\
    2 ^ 25 * Z.abs (255 * units r - 128 * 2 ^ 149) <= 255 * 2 ^ 149 /\
    shape (normalize example_pixels []).1 = shape example_pixels /\
    length (data (normalize example_pixels []).1) = length (data example_pixels).
Proof.
  split; [lia|].
  apply (normalize_maps_pixels_into_unit_interval example_pixels [] 1 128);
    [lia|reflexivity].
Defined.

(** 51/255 = 0.2, rescaled once more. *)
Lemma renormalization_witness :
  exists r,
    data (normalize (normalize pixel_51 []).1 []).1 !! 0%nat
      = Some r /\
    r = div (div (of_int 51) c255) c255 /\
    leb zero r = true /\ leb r (div one c255) = true /\
    Z.abs (2 * (255 * units r - units (div (of_int 51) c255))) <= 255 * 2 ^ 118 /\
    Z.abs (65025 * units r - units (of_int 51)) <= 65025 * 2 ^ 119.
Proof.
  destruct (renormalization_is_near_zero
              (normalize pixel_51 []).1 [] 0
              (div (of_int 51) c255))
    as (r & Hr & Heq & H0 & H1 & Herr & Htwice);
    [vm_compute; reflexivity ..|].
  exists r. repeat split; try assumption.
  apply (Htwice pixel_51 (of_int 51)); vm_compute; reflexivity.
Defined.

(** Rescaling 1.0 twice does not give the binary32 quotient of 1.0 by
    255^2: the two differ in the last binary digit. *)
Lemma renormalization_is_not_division_by_65025 :
  data (normalize (normalize value_one []).1 []).1
    = [S754_finite false 8454531 (-39)] /\
  data (tensor_div value_one (of_int (255 * 255)))
    = [S754_finite false 8454530 (-39)] /\
  (normalize (normalize value_one []).1 []).1
    <> tensor_div value_one (of_int (255 * 255)).
Proof.
  split; [vm_compute; reflexivity|]. split; [vm_compute; reflexivity|].
  intros Heq. apply (f_equal data) in Heq. vm_compute in Heq. discriminate Heq.
Qed.

Lemma normalize_leaves_labels_witness :
  keras_map example_batches normalize !! 0%nat =
    Some (tensor_div (fst (hd no_image example_batches)) c255,
          [0; 1]) /\
  snd <$> keras_map example_batches normalize = snd <$> example_batches.
Proof.
  destruct (normalize_leaves_labels_unchanged example_batches 0
              (fst (hd no_image example_batches)) [0; 1] eq_refl)
    as (Hm & _ & Hl).
  split; assumption.
Defined.

Lemma training_runs_five_full_epochs_witness :
  (run keras main example_world).1.1 = Ok tt /\
  exists bs,
    keras_load example_world data_dir img_size batch_size = Ok bs /\
    steps (run keras main example_world).1.2 =
      steps example_world ++
      full_schedule 5 Adam SparseCategoricalCrossentropy (keras_map bs normalize) /\
    length (full_schedule 5 Adam SparseCategoricalCrossentropy (keras_map bs normalize))
      = (5 * length bs)%nat /\
    omap event_epochs (run keras main example_world).2 = [5%nat] /\
    omap event_path (run keras main example_world).2 = ["leaf_model.h5"] /\
    event_tag <$> (run keras main example_world).2 = trace_upto 6.
Proof.
  assert (Hok : (run keras main example_world).1.1 = Ok tt) by (vm_compute; reflexivity).
  split; [exact Hok|]. exact (training_runs_five_full_epochs example_world Hok).
Defined.

(** The older model file is replaced when the path can be written, and
    left alone when it cannot. *)
Lemma persister_contract_witness :
  ((run keras main example_world).1.1 = Ok tt /\
   files (run keras main example_world).1.2 !! "leaf_model.h5"
     = Some (@ModelFile counting_backend model_layers 5%nat)) /\
  ((run keras main read_only_world).1.1 = Raise IOError /\
   files (run keras main read_only_world).1.2 = files read_only_world).
Proof.
  assert (Hload : keras_load example_world data_dir img_size batch_size = Ok example_batches)
    by (vm_compute; reflexivity).
  assert (Hload' : keras_load read_only_world data_dir img_size batch_size = Ok example_batches)
    by (vm_compute; reflexivity).
  assert (Ht : @trained counting_backend (keras_map example_batches normalize) =
               (5%nat, None,
                full_schedule 5 Adam SparseCategoricalCrossentropy
                  (keras_map example_batches normalize)))
    by (vm_compute; reflexivity).
  split.
  - destruct (persister_contract example_world example_batches _ _ Hload Ht) as [Hw _].
    destruct (Hw ltac:(apply not_elem_of_empty)) as (Hr & Hf & _). split; assumption.
  - destruct (persister_contract read_only_world example_batches _ _ Hload' Ht) as [_ Hro].
    destruct (Hro ltac:(apply elem_of_singleton; reflexivity)) as (Hr & Hf & _).
    split; assumption.
Defined.

End Examples.

(** ** More on the script against any implementation of the framework *)

Section DataFlow.
Context {dataset model W : Type}.
Implicit Types (h : handler dataset model W) (w : W).

(** Splits on the outcome of the next framework call, keeping what the
    call returned. *)
Ltac next_outcome h :=
  match goal with
  | |- context [h ?A ?c ?w] => destruct (h A c w) as [[?|?] ?] eqn:?
  end.

Ltac run_outcomes h := unfold main; cbn [run]; repeat (next_outcome h; cbn [run]).

(** X1. Whatever the framework does, each call is given what the calls
    before it returned: [map] gets the loaded dataset and the rescaling
    lambda, [compile] the declared model, [fit] that same model with the
    mapped (rescaled) dataset, never the raw one, and 5 epochs, and [save]
    the very model that [fit] was called on. *)
Theorem calls_are_chained h w :
  Forall (fun a => a.2 = normalize /\ loaded_from h w a.1)
    (omap event_map_args (run h main w).2) /\
  Forall (fun a => a = (a.1.1.1, "adam", "sparse_categorical_crossentropy", ["accuracy"]) /\
                   declared_from h w a.1.1.1)
    (omap event_compile_args (run h main w).2) /\
  Forall (fun a => a.2 = 5 /\ normalized_from h w a.1.2 /\ declared_from h w a.1.1)
    (omap event_fit_args (run h main w).2) /\
  Forall (fun a => a.2 = "leaf_model.h5" /\ declared_from h w a.1 /\
                   exists ds, (a.1, ds, 5) ∈ omap event_fit_args (run h main w).2)
    (omap event_save_args (run h main w).2).
Proof.
  run_outcomes h; cbn; repeat split; repeat constructor; cbn;
    unfold loaded_from, normalized_from, declared_from; eauto 12.
  all: eexists; apply list_elem_of_here.
Qed.

End DataFlow.

(** ** More on the rescaling lambda *)

Section RescalingAnyValue.
Import Float32 Float32Facts.
Local Open Scope Z_scope.

Lemma div_255_zero (s : bool) : div (S754_zero s) c255 = S754_zero s.
Proof. destruct s; reflexivity. Qed.

Lemma div_255_infinity (s : bool) : div (S754_infinity s) c255 = S754_infinity s.
Proof. destruct s; reflexivity. Qed.

Lemma is_number_pack (s : bool) (m e : Z) : is_number (pack s m e) = true.
Proof. destruct m; reflexivity. Qed.

Lemma sign_bit_pack (s : bool) (m e : Z) : sign_bit (pack s m e) = s.
Proof. destruct m; reflexivity. Qed.

Lemma pack_not_nan (s : bool) (m e : Z) : pack s m e <> S754_nan.
Proof. destruct m; discriminate. Qed.

(** On canonical non-negative numbers, a smaller value is smaller for
    [SFltb]. *)
Lemma ltb_of_units (m e : Z) (mx : positive) (ex : Z) :
  canonical m e -> bounded prec emax mx ex = true ->
  m * 2 ^ (e + 149) < Zpos mx * 2 ^ (ex + 149) ->
  SFltb (pack false m e) (S754_finite false mx ex) = true.
Proof.
  intros (He & Hm & Hn) Hb Hlt.
  destruct (bounded_inv _ _ Hb) as (Hex & Hxhi & Hxlo).
  destruct m as [|q|q]; [reflexivity| |lia].
  unfold pack, SFltb, SFcompare.
  assert (HP : 0 < 2 ^ (ex + 149)) by (apply Z.pow_pos_nonneg; lia).
  destruct (Z.compare_spec e ex) as [->|Hl|Hg]; [|reflexivity|exfalso].
  - change (Pos.compare_cont Eq q mx) with (Pos.compare q mx).
    destruct (Pos.compare_spec q mx) as [->|Hq|Hq]; [lia|reflexivity|nia].
  - assert (HK : 2 ^ (e + 149) = 2 ^ (e - ex) * 2 ^ (ex + 149)).
    { rewrite <- Z.pow_add_r by lia. f_equal. lia. }
    assert (H2 : 2 ^ 1 <= 2 ^ (e - ex)) by (apply Z.pow_le_mono_r; lia).
    change (2 ^ 1) with 2 in H2. specialize (Hn ltac:(lia)).
    rewrite HK in Hlt. nia.
Qed.

Lemma ltb_irrefl (v : float32) : SFltb v v = false.
Proof.
  destruct v as [s|s| |s m e]; try (destruct s; reflexivity); try reflexivity.
  unfold SFltb, SFcompare. rewrite Z.compare_refl.
  change (Pos.compare_cont Eq m m) with (Pos.compare m m).
  rewrite Pos.compare_refl. destruct s; reflexivity.
Qed.

(** X4. Dividing by 255.0 never leaves the class of a value: a number
    (zero or finite) goes to a number, so that no pixel overflows to an
    infinity or becomes NaN, though a tiny one may underflow to zero; an
    infinity stays an infinity and NaN stays NaN; the sign is kept and the
    result is a valid binary32 value. *)
Theorem normalize_keeps_value_classes (x : tensor) (y : labels) (i : nat) (v : float32) :
  data x !! i = Some v -> valid v = true ->
  exists r,
    data (normalize x y).1 !! i = Some r /\
    valid r = true /\
    is_number r = is_number v /\
    sign_bit r = sign_bit v /\
    (r = S754_nan <-> v = S754_nan).
Proof.
  intros Hx Hv. exists (div v c255).
  split; [unfold normalize; cbn [fst]; rewrite tensor_div_lookup, Hx; reflexivity|].
  destruct v as [s|s| |s mx ex].
  - rewrite div_255_zero. repeat split; discriminate.
  - rewrite div_255_infinity. repeat split; discriminate.
  - repeat split; reflexivity.
  - destruct (div_255_finite s mx ex Hv) as (m & e & -> & Hc & _).
    split; [now apply valid_pack|]. split; [apply is_number_pack|].
    split; [apply sign_bit_pack|]. split; [intros Hn; now apply pack_not_nan in Hn|discriminate].
Qed.

(** X5. The lambda makes every positive number strictly smaller, so
    that it changes every tensor that holds one: rescaling is not
    idempotent on image data. *)
Theorem normalize_strictly_reduces_positive_numbers
    (x : tensor) (y : labels) (i : nat) (v : float32) :
  data x !! i = Some v -> valid v = true -> is_number v = true ->
  SFltb zero v = true ->
  exists r,
    data (normalize x y).1 !! i = Some r /\
    SFltb r v = true /\
    (normalize x y).1 <> x.
Proof.
  intros Hx Hv Hnum Hpos.
  assert (Hlook : data (normalize x y).1 !! i = Some (div v c255)).
  { unfold normalize. cbn [fst]. rewrite tensor_div_lookup, Hx. reflexivity. }
  assert (Hlt : SFltb (div v c255) v = true).
  { destruct v as [s|s| |s mx ex]; try discriminate.
    destruct s; [discriminate|]. cbn in Hv.
    destruct (bounded_inv _ _ Hv) as (Hex & Hxhi & Hxlo).
    destruct (div_255_finite false mx ex Hv) as (m & e & -> & Hc & Herr).
    apply ltb_of_units; try assumption.
    destruct Hc as (He & Hm & _).
    assert (HP : 0 < 2 ^ (e + 149)) by (apply Z.pow_pos_nonneg; lia).
    assert (HU : 0 < Zpos mx * 2 ^ (ex + 149)).
    { apply Z.mul_pos_pos; [lia|apply Z.pow_pos_nonneg; lia]. }
    set (U := Zpos mx * 2 ^ (ex + 149)) in *. set (P := 2 ^ (e + 149)) in *.
    destruct (Z.eq_dec m 0) as [->|Hm0]; [lia|].
    assert (HX : P <= m * P) by nia. lia. }
  exists (div v c255). split; [exact Hlook|]. split; [exact Hlt|].
  intros Heq. rewrite Heq, Hx in Hlook. injection Hlook as Hfix.
  rewrite <- Hfix in Hlt at 1. rewrite ltb_irrefl in Hlt. discriminate.
Qed.

End RescalingAnyValue.

(** ** Division by 255.0 rounds to a nearest binary32 value *)

Module Float32Nearest.
Import Float32 Float32Facts.
Local Open Scope Z_scope.

(** [binary_round_aux] returns one of the two neighbours [m1], [m1 + 1] of
    the exact quotient at the exponent [e1] it settles on before a carry,
    and the nearer of the two. *)
Lemma round_aux_nearest (s : bool) (q e : Z) (l : location) (N D : Z) :
  0 < D -> inb (shr_record_of_loc q l) N D ->
  -149 <= e <= 102 -> q < 2 ^ 25 -> (-149 < e -> 2 ^ 23 <= q) ->
  exists m e2 m1 e1 k,
    binary_round_aux prec emax s q e l = pack s m e2 /\
    canonical m e2 /\
    ((e1 = e /\ k = 1) \/ (e1 = e + 1 /\ k = 2)) /\
    e1 <= e2 <= e1 + 1 /\
    0 <= m1 < 2 ^ 24 /\ (-149 < e1 -> 2 ^ 23 <= m1) /\
    m1 * (k * D) <= N < (m1 + 1) * (k * D) /\
    (m * 2 ^ (e2 - e1) = m1 \/ m * 2 ^ (e2 - e1) = m1 + 1) /\
    Z.abs (2 * (m * 2 ^ (e2 - e1) * (k * D) - N)) <= k * D.
Proof.
  intros HD Hinb He Hq Hn. unfold binary_round_aux.
  assert (Hq0 : 0 <= q) by (destruct Hinb as [H _]; now rewrite shr_m_record in H).
  assert (Hfinal : forall m1 e1 (mrs : shr_record) k,
    shr_m mrs = m1 -> inb mrs N (k * D) -> 0 < k ->
    -149 <= e1 <= 103 -> m1 < 2 ^ 24 -> (-149 < e1 -> 2 ^ 23 <= m1) ->
    exists m e2,
      (let '(mrs'', e'') := shr_fexp prec emax
           (round_nearest_even (shr_m mrs) (loc_of_shr_record mrs)) e1 loc_Exact in
       match shr_m mrs'' with
       | 0 => S754_zero s
       | Zpos m0 => if e'' <=? emax - prec then S754_finite s m0 e'' else S754_infinity s
       | Zneg _ => S754_nan
       end) = pack s m e2 /\
      canonical m e2 /\ e1 <= e2 <= e1 + 1 /\
      (m * 2 ^ (e2 - e1) = m1 \/ m * 2 ^ (e2 - e1) = m1 + 1) /\
      Z.abs (2 * (m * 2 ^ (e2 - e1) * (k * D) - N)) <= k * D).
  { intros m1 e1 mrs k Hm1 Hi Hk He1 Hm1hi Hm1lo.
    assert (HkD : 0 < k * D) by lia.
    destruct (round_nearest_even_inb mrs N (k * D) HkD Hi) as [Hr Herr].
    set (mr := round_nearest_even (shr_m mrs) (loc_of_shr_record mrs)) in *.
    assert (Hm10 : 0 <= m1) by (destruct Hi as [H _]; lia).
    destruct (Z_lt_ge_dec mr (2 ^ 24)) as [Hlt|Hge].
    - rewrite shr_fexp_small by lia. simpl shr_m.
      exists mr, e1. replace (e1 - e1) with 0 by lia. rewrite Z.pow_0_r, Z.mul_1_r.
      split; [|split; [|split; [|split]]].
      + unfold pack. destruct mr as [|p|p]; try reflexivity; [|lia].
        unfold emax, prec. destruct (Z.leb_spec e1 (128 - 24)); [reflexivity|lia].
      + unfold canonical. lia.
      + lia.
      + lia.
      + exact Herr.
    - assert (Hmr : mr = 2 ^ 24) by lia.
      rewrite shr_fexp_big by lia. rewrite Hmr.
      exists (2 ^ 23), (e1 + 1). replace (e1 + 1 - e1) with 1 by lia.
      change (2 ^ 23 * 2 ^ 1) with (2 ^ 24).
      split; [|split; [|split; [|split]]].
      + simpl. unfold emax, prec. destruct (Z.leb_spec (e1 + 1) (128 - 24)); [reflexivity|lia].
      + unfold canonical. lia.
      + lia.
      + lia.
      + rewrite Hmr in Herr. exact Herr. }
  destruct (Z_lt_ge_dec q (2 ^ 24)) as [Hlt|Hge].
  - rewrite shr_fexp_small by lia.
    assert (Hi : inb (shr_record_of_loc q l) N (1 * D)) by now rewrite Z.mul_1_l.
    destruct (Hfinal q e (shr_record_of_loc q l) 1 (shr_m_record q l) Hi)
      as (m & e2 & Heq & Hc & He2 & Hmm & Herr); try lia.
    exists m, e2, q, e, 1. rewrite Heq.
    destruct Hi as (_ & Hb & _). rewrite shr_m_record in Hb.
    split; [reflexivity|]. split; [exact Hc|]. split; [left; split; reflexivity|].
    split; [lia|]. split; [lia|]. split; [assumption|]. split; [exact Hb|].
    split; [exact Hmm|exact Herr].
  - rewrite shr_fexp_big by lia.
    pose proof (shr_1_inb _ _ _ HD Hinb) as Hi1.
    pose proof (shr_1_m (shr_record_of_loc q l)) as Hm1. rewrite shr_m_record in Hm1.
    specialize (Hm1 Hq0).
    assert (Hdiv : 2 ^ 23 <= q / 2 < 2 ^ 24).
    { split; [apply Z.div_le_lower_bound|apply Z.div_lt_upper_bound]; lia. }
    destruct (Hfinal (q / 2) (e + 1) (shr_1 (shr_record_of_loc q l)) 2 Hm1 Hi1)
      as (m & e2 & Heq & Hc & He2 & Hmm & Herr); try lia.
    exists m, e2, (q / 2), (e + 1), 2. rewrite Heq.
    destruct Hi1 as (_ & Hb & _). rewrite Hm1 in Hb.
    split; [reflexivity|]. split; [exact Hc|]. split; [right; split; reflexivity|].
    split; [lia|]. split; [lia|]. split; [lia|]. split; [exact Hb|].
    split; [exact Hmm|exact Herr].
Qed.

(** The quotient by 255.0 of a finite value, between its two neighbours:
    with [U] the value of the dividend in units of 2^-149, the exact
    quotient [U / 255] lies between [m1] and [m1 + 1] units of 2^e1, the
    result is one of these two, and the nearer one. *)
Lemma div_255_neighbours (s : bool) (mx : positive) (ex : Z) :
  bounded prec emax mx ex = true ->
  exists m e m1 e1,
    div (S754_finite s mx ex) c255 = pack s m e /\
    canonical m e /\
    -149 <= e1 <= e /\
    0 <= m1 < 2 ^ 24 /\ (-149 < e1 -> 2 ^ 23 <= m1) /\
    255 * (m1 * 2 ^ (e1 + 149)) <= Zpos mx * 2 ^ (ex + 149)
      < 255 * ((m1 + 1) * 2 ^ (e1 + 149)) /\
    (m * 2 ^ (e + 149) = m1 * 2 ^ (e1 + 149) \/
     m * 2 ^ (e + 149) = (m1 + 1) * 2 ^ (e1 + 149)) /\
    Z.abs (2 * (255 * (m * 2 ^ (e + 149)) - Zpos mx * 2 ^ (ex + 149)))
      <= 255 * 2 ^ (e1 + 149).
Proof.
  intros Hb. destruct (bounded_inv _ _ Hb) as (Hex & Hhi & Hlo).
  unfold div. rewrite c255_eq. cbn [SFdiv]. rewrite div_core_255 by assumption.
  rewrite xorb_false_r.
  set (sh := Z.min 24 (ex + 165)).
  set (N := Zpos mx * 2 ^ sh).
  assert (Hsh : 16 <= sh <= 24) by (unfold sh; lia).
  assert (HN0 : 0 <= N) by (unfold N; apply Z.mul_nonneg_nonneg; [lia|apply Z.pow_nonneg; lia]).
  pose proof (Z.div_mod N 16711680 ltac:(lia)) as Hdm.
  pose proof (Z.mod_pos_bound N 16711680 ltac:(lia)) as Hmod.
  assert (Hq0 : 0 <= N / 16711680) by (apply Z.div_pos; lia).
  assert (Hpow : 2 ^ sh <= 2 ^ 24) by (apply Z.pow_le_mono_r; lia).
  assert (HNhi : N < 2 ^ 24 * 2 ^ 24).
  { unfold N. apply Z.le_lt_trans with (Zpos mx * 2 ^ 24).
    - apply Z.mul_le_mono_nonneg_l; lia.
    - apply Z.mul_lt_mono_pos_r; lia. }
  assert (Hqhi : N / 16711680 < 2 ^ 25) by (apply Z.div_lt_upper_bound; lia).
  assert (Hqlo : -149 < Z.max (ex - 8) (-149) -> 2 ^ 23 <= N / 16711680).
  { intros Hn. assert (Hs24 : sh = 24) by (unfold sh; lia).
    apply Z.div_le_lower_bound; [lia|]. unfold N. rewrite Hs24.
    specialize (Hlo ltac:(lia)). lia. }
  destruct (round_aux_nearest s (N / 16711680) (Z.max (ex - 8) (-149))
              (new_location 16711680 (N mod 16711680)) N 16711680)
    as (m & e2 & m1 & e1 & k & Heq & Hc & Hk & He2 & Hm1 & Hm1lo & Hbr & Hmm & Herr);
    try lia.
  { apply inb_new_location; lia. }
  exists m, e2, m1, e1. split; [exact Heq|]. split; [exact Hc|].
  set (e0 := Z.max (ex - 8) (-149)) in *.
  set (t := e0 + 149).
  assert (Ht : 0 <= t) by (unfold t, e0; lia).
  set (P := 2 ^ t).
  assert (HP : 0 < P) by (apply Z.pow_pos_nonneg; lia).
  assert (Hex' : 2 ^ (ex + 149) = P * 2 ^ (sh - 16)).
  { unfold P. rewrite <- Z.pow_add_r by lia. f_equal. unfold t, e0, sh. lia. }
  assert (HN : N = Zpos mx * 2 ^ (sh - 16) * 65536).
  { unfold N. replace sh with ((sh - 16) + 16) at 1 by lia.
    rewrite Z.pow_add_r by lia. change (2 ^ 16) with 65536. ring. }
  assert (HP1 : 2 ^ (e1 + 149) = k * P).
  { destruct Hk as [[-> ->]|[-> ->]].
    - fold t. unfold P. lia.
    - replace (e0 + 1 + 149) with (Z.succ t) by (unfold t; lia).
      rewrite Z.pow_succ_r by lia. reflexivity. }
  assert (Hk0 : k = 1 \/ k = 2) by (destruct Hk as [[_ ->]|[_ ->]]; lia).
  assert (Ha : 2 ^ (e2 - e1) = 1 \/ 2 ^ (e2 - e1) = 2).
  { assert (e2 = e1 \/ e2 = e1 + 1) as [-> | ->] by lia.
    - left. now rewrite Z.sub_diag.
    - right. replace (e1 + 1 - e1) with 1 by lia. reflexivity. }
  assert (HP2 : 2 ^ (e2 + 149) = 2 ^ (e2 - e1) * (k * P)).
  { rewrite <- HP1, <- Z.pow_add_r by lia. f_equal. lia. }
  rewrite HP2, HP1, Hex'.
  set (a := 2 ^ (e2 - e1)) in *. set (Y := Zpos mx * 2 ^ (sh - 16)) in *.
  rewrite HN in Hbr, Herr.
  split; [destruct Hk as [[-> _]|[-> _]]; lia|].
  split; [lia|]. split; [exact Hm1lo|].
  assert (HY : Zpos mx * (P * 2 ^ (sh - 16)) = P * Y) by (unfold Y; ring).
  rewrite HY.
  split; [|split].
  - assert (H1 : 255 * (m1 * k) <= Y < 255 * ((m1 + 1) * k)).
    { clear - Hbr Hk0. destruct Hk0 as [-> | ->]; lia. }
    clear - H1 HP.
    replace (255 * (m1 * (k * P))) with (P * (255 * (m1 * k))) by ring.
    replace (255 * ((m1 + 1) * (k * P))) with (P * (255 * ((m1 + 1) * k))) by ring.
    split; [apply Z.mul_le_mono_nonneg_l|apply Z.mul_lt_mono_pos_l]; lia.
  - destruct Hmm as [Hmm|Hmm]; [left|right]; rewrite <- Hmm; ring.
  - assert (H1 : Z.abs (2 * (255 * (m * a * k) - Y)) <= 255 * k).
    { clear - Herr Hk0 Ha. destruct Hk0 as [-> | ->]; destruct Ha as [-> | ->]; lia. }
    clear - H1 HP.
    replace (2 * (255 * (m * (a * (k * P))) - P * Y))
      with (P * (2 * (255 * (m * a * k) - Y))) by ring.
    replace (255 * (k * P)) with (P * (255 * k)) by ring.
    rewrite Z.abs_mul, (Z.abs_eq P) by lia.
    apply Z.mul_le_mono_nonneg_l; lia.
Qed.


Lemma nearest_candidate (U R m1 e1 mf ef : Z) :
  -149 <= e1 -> 0 <= m1 -> (-149 < e1 -> 2 ^ 23 <= m1) ->
  255 * (m1 * 2 ^ (e1 + 149)) <= U < 255 * ((m1 + 1) * 2 ^ (e1 + 149)) ->
  (R = m1 * 2 ^ (e1 + 149) \/ R = (m1 + 1) * 2 ^ (e1 + 149)) ->
  Z.abs (2 * (255 * R - U)) <= 255 * 2 ^ (e1 + 149) ->
  canonical mf ef ->
  Z.abs (255 * R - U) <= Z.abs (255 * (mf * 2 ^ (ef + 149)) - U).
Proof.
  intros He1 Hm1 Hn HU HR Herr (Hef & Hmf & Hnf).
  set (P1 := 2 ^ (e1 + 149)) in *.
  assert (HP1 : 0 < P1) by (apply Z.pow_pos_nonneg; lia).
  set (F := mf * 2 ^ (ef + 149)).
  assert (Hside : F <= m1 * P1 \/ (m1 + 1) * P1 <= F).
  { destruct (Z_le_gt_dec e1 ef) as [Hle|Hgt].
    - assert (HF : F = mf * 2 ^ (ef - e1) * P1).
      { unfold F, P1. rewrite <- Z.mul_assoc, <- Z.pow_add_r by lia. do 2 f_equal. lia. }
      rewrite HF. set (k := mf * 2 ^ (ef - e1)).
      destruct (Z_le_gt_dec k m1); [left|right]; apply Z.mul_le_mono_nonneg_r; lia.
    - left. specialize (Hn ltac:(lia)).
      assert (HPf : 0 < 2 ^ (ef + 149)) by (apply Z.pow_pos_nonneg; lia).
      assert (HPP : 2 * 2 ^ (ef + 149) <= P1).
      { unfold P1. rewrite <- Z.pow_succ_r by lia. apply Z.pow_le_mono_r; lia. }
      unfold F. set (Pf := 2 ^ (ef + 149)) in *.
      apply Z.le_trans with (2 ^ 24 * Pf); [apply Z.mul_le_mono_nonneg_r; lia|].
      apply Z.le_trans with (2 ^ 23 * P1); [lia|].
      apply Z.mul_le_mono_nonneg_r; lia. }
  fold F. set (X := m1 * P1) in *.
  replace ((m1 + 1) * P1) with (X + P1) in * by (unfold X; ring).
  clearbody X F P1. clear - HU HR Herr Hside HP1. lia.
Qed.

Lemma units_inj (mx : positive) (ex : Z) (my : positive) (ey : Z) :
  bounded prec emax mx ex = true -> bounded prec emax my ey = true ->
  Zpos mx * 2 ^ (ex + 149) = Zpos my * 2 ^ (ey + 149) ->
  mx = my /\ ex = ey.
Proof.
  intros Hx Hy Heq.
  destruct (bounded_inv _ _ Hx) as (Hex & Hxhi & Hxlo).
  destruct (bounded_inv _ _ Hy) as (Hey & Hyhi & Hylo).
  assert (Hstep : forall (a b ea eb : Z), -149 <= ea < eb -> 0 < a < 2 ^ 24 ->
            2 ^ 23 <= b -> a * 2 ^ (ea + 149) = b * 2 ^ (eb + 149) -> False).
  { intros a b ea eb Hab Ha Hb H.
    assert (HK : 2 ^ (eb + 149) = 2 ^ (eb - ea) * 2 ^ (ea + 149)).
    { rewrite <- Z.pow_add_r by lia. f_equal. lia. }
    assert (H2 : 2 ^ 1 <= 2 ^ (eb - ea)) by (apply Z.pow_le_mono_r; lia).
    assert (HP : 0 < 2 ^ (ea + 149)) by (apply Z.pow_pos_nonneg; lia).
    change (2 ^ 1) with 2 in H2. rewrite HK in H.
    set (K := 2 ^ (eb - ea)) in *. set (P := 2 ^ (ea + 149)) in *.
    assert (a = b * K) by nia. nia. }
  destruct (Z.lt_trichotomy ex ey) as [Hlt|[->|Hgt]].
  - exfalso. apply (Hstep (Zpos mx) (Zpos my) ex ey); lia.
  - assert (HP : 0 < 2 ^ (ey + 149)) by (apply Z.pow_pos_nonneg; lia).
    split; [|reflexivity]. apply Z.mul_cancel_r in Heq; [congruence|lia].
  - exfalso. apply (Hstep (Zpos my) (Zpos mx) ey ex); lia.
Qed.

Lemma leb_pack_of_units (m e m' e' : Z) :
  canonical m e -> canonical m' e' ->
  m * 2 ^ (e + 149) <= m' * 2 ^ (e' + 149) ->
  leb (pack false m e) (pack false m' e') = true.
Proof.
  intros (He & Hm & Hn) (He' & Hm' & Hn') Hle.
  assert (HP : 0 < 2 ^ (e + 149)) by (apply Z.pow_pos_nonneg; lia).
  assert (HP' : 0 < 2 ^ (e' + 149)) by (apply Z.pow_pos_nonneg; lia).
  destruct m as [|q|q]; [destruct m' as [|q'|q']; reflexivity| |lia].
  destruct m' as [|q'|q']; [exfalso; nia| |lia].
  unfold pack, leb, SFleb, SFcompare.
  destruct (Z.compare_spec e e') as [->|Hl|Hg]; [|reflexivity|exfalso].
  - change (Pos.compare_cont Eq q q') with (Pos.compare q q').
    destruct (Pos.compare_spec q q') as [->|Hq|Hq]; [reflexivity|reflexivity|exfalso; nia].
  - assert (HK : 2 ^ (e + 149) = 2 ^ (e - e') * 2 ^ (e' + 149)).
    { rewrite <- Z.pow_add_r by lia. f_equal. lia. }
    assert (H2 : 2 ^ 1 <= 2 ^ (e - e')) by (apply Z.pow_le_mono_r; lia).
    change (2 ^ 1) with 2 in H2. specialize (Hn ltac:(lia)).
    rewrite HK in Hle. nia.
Qed.

(** Division by 255.0 is monotone on the non-negative values. *)
Lemma div_255_monotone (v v' : float32) :
  valid v = true -> valid v' = true ->
  leb zero v = true -> leb v v' = true ->
  leb (div v c255) (div v' c255) = true.
Proof.
  intros Hv Hv' H0 Hle.
  destruct v as [s|s| |s mx ex]; try discriminate.
  - (* zero *)
    rewrite div_255_zero.
    destruct v' as [s'|s'| |s' mx' ex']; try discriminate.
    + rewrite div_255_zero. destruct s, s'; reflexivity.
    + destruct s'; [destruct s; discriminate|]. rewrite div_255_infinity.
      destruct s; reflexivity.
    + destruct s'; [destruct s; discriminate|].
      destruct (div_255_finite false mx' ex' Hv') as (m & e & -> & _).
      destruct m, s; reflexivity.
  - (* infinity *)
    destruct s; [discriminate|].
    destruct v' as [s'|s'| |s' mx' ex']; try discriminate.
    destruct s'; [discriminate|]. reflexivity.
  - (* finite *)
    destruct s; [discriminate|].
    destruct v' as [s'|s'| |s' mx' ex']; try discriminate.
    + destruct s'; [discriminate|]. rewrite div_255_infinity.
      destruct (div_255_finite false mx ex Hv) as (m & e & -> & _).
      destruct m; reflexivity.
    + destruct s'; [discriminate|]. cbn in Hv, Hv'.
      pose proof (leb_finite_units _ _ _ _ Hv Hv' Hle) as HU.
      destruct (div_255_neighbours false mx ex Hv)
        as (m & e & m1 & e1 & Heq & Hc & He1 & Hm1 & Hn1 & Hb & HR & Herr).
      destruct (div_255_neighbours false mx' ex' Hv')
        as (m' & e' & m1' & e1' & Heq' & Hc' & He1' & Hm1' & Hn1' & Hb' & HR' & Herr').
      pose proof (nearest_candidate _ _ m1 e1 m' e' ltac:(lia) ltac:(lia) Hn1 Hb HR Herr Hc')
        as Hnear.
      pose proof (nearest_candidate _ _ m1' e1' m e ltac:(lia) ltac:(lia) Hn1' Hb' HR' Herr' Hc)
        as Hnear'.
      rewrite Heq, Heq'. apply leb_pack_of_units; try assumption.
      destruct (Z_le_gt_dec (m * 2 ^ (e + 149)) (m' * 2 ^ (e' + 149))) as [|Hgt];
        [assumption|exfalso].
      assert (HUU : Zpos mx * 2 ^ (ex + 149) = Zpos mx' * 2 ^ (ex' + 149)).
      { clear - HU Hnear Hnear' Hgt. lia. }
      destruct (units_inj _ _ _ _ Hv Hv' HUU) as [<- <-].
      rewrite Heq in Heq'.
      assert (HRR : units (pack false m e) = units (pack false m' e')) by now rewrite Heq'.
      rewrite !units_pack in HRR by (destruct Hc as (_ & ? & _), Hc' as (_ & ? & _); lia).
      lia.
Qed.

End Float32Nearest.

(** ** The rescaling lambda keeps the order and rounds to nearest *)

Section RescalingOrder.
Import Float32 Float32Facts Float32Nearest.
Local Open Scope Z_scope.

(** X6. The lambda keeps the order of the intensities of a tensor: a
    non-negative element that is no greater than another one is no greater
    than it after rescaling. *)
Theorem normalize_preserves_order
    (x : tensor) (y : labels) (i j : nat) (v v' : float32) :
  data x !! i = Some v -> data x !! j = Some v' ->
  valid v = true -> valid v' = true ->
  leb zero v = true -> leb v v' = true ->
  exists r r',
    data (normalize x y).1 !! i = Some r /\
    data (normalize x y).1 !! j = Some r' /\
    leb r r' = true.
Proof.
  intros Hi Hj Hv Hv' H0 Hle. exists (div v c255), (div v' c255).
  unfold normalize. cbn [fst]. rewrite !tensor_div_lookup, Hi, Hj.
  split; [reflexivity|]. split; [reflexivity|]. now apply div_255_monotone.
Qed.

(** From 2^-118 on, the quotient by 255.0 is a normal number. *)
Lemma div_255_zero_or_normal (v : float32) :
  valid v = true -> is_number v = true -> leb zero v = true ->
  has_normal_quotient v -> is_zero_or_normal (div v c255).
Proof.
  intros Hv Hnum H0 [[s ->]|Hge].
  - rewrite div_255_zero. left. now exists s.
  - pose proof (div_255_monotone least_unflushed v eq_refl Hv eq_refl Hge) as Hmono.
    change (div least_unflushed c255) with (S754_finite false 8421505 (-149)) in Hmono.
    destruct v as [s|s| |s mx ex]; try discriminate.
    destruct s; [discriminate|]. cbn in Hv.
    destruct (div_255_finite false mx ex Hv) as (m & e & Heq & Hc & _).
    rewrite Heq in Hmono |- *. destruct Hc as (He & Hm & Hn).
    destruct m as [|q|q]; [discriminate| |lia].
    right. exists false, q, e. split; [reflexivity|].
    assert (Hb : bounded prec emax q e = true) by (apply bounded_intro; lia).
    pose proof (leb_finite_units 8421505 (-149) q e eq_refl Hb Hmono) as HU.
    apply digits2_pos_unique. change (prec - 1) with 23. change prec with 24.
    split; [|lia].
    destruct (Z.eq_dec e (-149)) as [->|Hne]; [|apply Hn; lia].
    change (2 ^ (-149 + 149)) with 1 in HU. lia.
Qed.

(** X3. The lambda takes a whole tensor of pixel intensities (binary32
    numbers of [[0, 255]], integers or not) that are zero or at least
    2^-118 to a tensor of values of [[0, 1]], each zero or normal, each the
    quotient of its pixel by 255.0 and within 2^-24 of the exact quotient.
    (Below 2^-118 the quotient is subnormal, and an arithmetic unit that
    flushes subnormal numbers returns zero instead: the theorem leaves
    those intensities out.) *)
Theorem normalize_maps_intensities_into_unit_interval (x : tensor) (y : labels) :
  Forall (fun v => is_intensity v /\ has_normal_quotient v) (data x) ->
  Forall (fun r => is_unit_value r /\ is_zero_or_normal r) (data (normalize x y).1) /\
  Forall2 (fun v r => r = div v c255 /\
                      Z.abs (2 * (255 * units r - units v)) <= 255 * 2 ^ 126)
    (data x) (data (normalize x y).1).
Proof.
  unfold normalize, tensor_div. cbn [fst data].
  induction (data x) as [|v l IH]; intros Hall.
  - split; constructor.
  - apply Forall_cons in Hall as [[(Hv & H0 & H1) Hnq] Hl].
    destruct (IH Hl) as [IH1 IH2].
    destruct (rescale_pixel v Hv H0 H1) as (Hrv & Hr0 & Hr1 & Herr).
    assert (Hnum : is_number v = true).
    { destruct v as [s|s| |s mx ex]; try reflexivity; [destruct s|]; discriminate. }
    pose proof (div_255_zero_or_normal v Hv Hnum H0 Hnq) as Hzn.
    split; constructor; try assumption;
      [split; [repeat split; assumption|exact Hzn]|split; [reflexivity|exact Herr]].
Qed.

(** X7. On a non-negative number that is zero or at least 2^-118 the
    lambda returns a zero or normal binary32 value nearest to the exact
    quotient by 255: no binary32 number, of either sign, is closer to it
    (values in units of 2^-149, the distances scaled by 255).  (Below
    2^-118 an arithmetic unit that flushes subnormal numbers returns zero,
    which is not the nearest value: the theorem leaves those out.) *)
Theorem normalize_rounds_to_nearest
    (x : tensor) (y : labels) (i : nat) (v f : float32) :
  data x !! i = Some v ->
  valid v = true -> is_number v = true -> leb zero v = true ->
  has_normal_quotient v ->
  valid f = true -> is_number f = true ->
  exists r,
    data (normalize x y).1 !! i = Some r /\
    is_zero_or_normal r /\
    Z.abs (255 * units r - units v) <= Z.abs (255 * units f - units v).
Proof.
  intros Hi Hv Hnum H0 Hnq Hf Hfnum. exists (div v c255).
  split; [unfold normalize; cbn [fst]; rewrite tensor_div_lookup, Hi; reflexivity|].
  split; [now apply div_255_zero_or_normal|].
  destruct v as [s|s| |s mx ex]; try discriminate.
  - rewrite div_255_zero. cbn [units]. lia.
  - destruct s; [discriminate|]. cbn in Hv.
    destruct (div_255_neighbours false mx ex Hv)
      as (m & e & m1 & e1 & -> & Hc & He1 & Hm1 & Hn1 & Hb & HR & Herr).
    rewrite units_pack by (destruct Hc as (_ & ? & _); lia).
    change (units (S754_finite false mx ex)) with (1 * (Zpos mx * 2 ^ (ex + 149))).
    rewrite Z.mul_1_l.
    assert (Hzero : canonical 0 (-149)) by (unfold canonical; lia).
    pose proof (nearest_candidate _ _ m1 e1 0 (-149) ltac:(lia) ltac:(lia) Hn1 Hb HR Herr Hzero)
      as Hnear0.
    assert (HU : 0 < Zpos mx * 2 ^ (ex + 149)).
    { apply Z.mul_pos_pos; [lia|]. destruct (bounded_inv _ _ Hv) as (? & _).
      apply Z.pow_pos_nonneg; lia. }
    destruct f as [sf|sf| |sf mf ef]; try discriminate.
    + cbn [units]. lia.
    + cbn in Hf. destruct (bounded_inv _ _ Hf) as (Hef & Hfhi & Hflo).
      assert (Hcf : canonical (Zpos mf) ef) by (unfold canonical; lia).
      pose proof (nearest_candidate _ _ m1 e1 (Zpos mf) ef ltac:(lia) ltac:(lia)
                    Hn1 Hb HR Herr Hcf) as Hnear.
      assert (HF : 0 < Zpos mf * 2 ^ (ef + 149)).
      { apply Z.mul_pos_pos; [lia|apply Z.pow_pos_nonneg; lia]. }
      cbn [units]. destruct sf; lia.
Qed.

End RescalingOrder.

(** ** The further theorems at work on the examples *)

Section MoreExamples.
Import Float32.
Local Open Scope Z_scope.

Lemma normalize_keeps_value_classes_witness :
  exists r,
    data (normalize example_pixels []).1 !! 1%nat = Some r /\
    valid r = true /\
    is_number r = is_number (of_int 128) /\
    sign_bit r = sign_bit (of_int 128) /\
    (r = S754_nan <-> of_int 128 = S754_nan).
Proof.
  exact (normalize_keeps_value_classes example_pixels [] 1 (of_int 128) eq_refl eq_refl).
Defined.

Lemma normalize_strictly_reduces_witness :
  exists r,
    data (normalize example_pixels []).1 !! 1%nat = Some r /\
    SFltb r (of_int 128) = true /\
    (normalize example_pixels []).1 <> example_pixels.
Proof.
  exact (normalize_strictly_reduces_positive_numbers example_pixels [] 1 (of_int 128)
           eq_refl eq_refl eq_refl eq_refl).
Defined.

Lemma normalize_preserves_order_witness :
  exists r r',
    data (normalize example_pixels []).1 !! 1%nat = Some r /\
    data (normalize example_pixels []).1 !! 2%nat = Some r' /\
    leb r r' = true.
Proof.
  exact (normalize_preserves_order example_pixels [] 1 2 (of_int 128) (of_int 255)
           eq_refl eq_refl eq_refl eq_refl eq_refl eq_refl).
Defined.

(** The pixels 0, 128 and 255 are intensities with a normal quotient. *)
Lemma example_pixels_are_intensities :
  Forall (fun v => is_intensity v /\ has_normal_quotient v) (data example_pixels).
Proof.
  cbn.
  repeat (apply Forall_cons; split;
          [split; [split; [reflexivity|split; reflexivity]
                  |first [left; exists false; reflexivity | right; reflexivity]]|]).
  constructor.
Defined.

Lemma normalize_maps_intensities_witness :
  Forall (fun v => is_intensity v /\ has_normal_quotient v) (data example_pixels) /\
  Forall (fun r => is_unit_value r /\ is_zero_or_normal r)
    (data (normalize example_pixels []).1) /\
  Forall2 (fun v r => r = div v c255 /\
                      Z.abs (2 * (255 * units r - units v)) <= 255 * 2 ^ 126)
    (data example_pixels) (data (normalize example_pixels []).1).
Proof.
  split; [exact example_pixels_are_intensities|].
  exact (normalize_maps_intensities_into_unit_interval example_pixels []
           example_pixels_are_intensities).
Defined.

Lemma normalize_rounds_to_nearest_witness :
  has_normal_quotient (of_int 128) /\
  exists r,
    data (normalize example_pixels []).1 !! 1%nat = Some r /\
    is_zero_or_normal r /\
    Z.abs (255 * units r - units (of_int 128))
      <= Z.abs (255 * units one - units (of_int 128)).
Proof.
  assert (Hnq : has_normal_quotient (of_int 128)) by (right; reflexivity).
  split; [exact Hnq|].
  exact (normalize_rounds_to_nearest example_pixels [] 1 (of_int 128) one
           eq_refl eq_refl eq_refl eq_refl Hnq eq_refl eq_refl).
Defined.

End MoreExamples.
